(** * Public transport delay dashboard

    A shallow embedding of [Public_transport_delay_system.py]: the per-item
    loop of [fetch_vehicle_data], [categorize_delay], the sidebar filter block,
    the summary tile for the most delayed vehicle, the same-route comparison
    and the best hour / best vehicle panel.

    Python values that come out of [response.json()] are the type [pyobj];
    a dict is a finite map from strings.  The data frame is a list of rows in
    index order.  Integers are [Z]; a group mean is kept as the exact
    quotient in [Qc]. *)

From Stdlib Require Import PrimFloat Qcanon.
From stdpp Require Import base sorting numbers strings gmap list.

Set Warnings "-register-all".

Local Open Scope Z_scope.

(** ** Python objects and subscripting *)

Inductive pyobj : Type :=
  | PyNone
  | PyBool (b : bool)
  | PyInt (n : Z)
  | PyFloat (x : float)
  | PyStr (s : string)
  | PyList (l : list pyobj)
  | PyDict (d : gmap string pyobj).

Inductive exn : Type :=
  | KeyError (key : string)
  | TypeError
  | IndexError
  | ValueError.

Inductive result (A : Type) : Type :=
  | Ok (a : A)
  | Raise (e : exn).
Arguments Ok {A} a.
Arguments Raise {A} e.

#[global] Instance result_ret : MRet result := λ A, Ok.
#[global] Instance result_bind : MBind result := λ A B f m,
  match m with
  | Ok a => f a
  | Raise e => Raise e
  end.

(** [obj[key]] with a string key: only a dict can be subscripted that way;
    a list, a str, a number or [None] raises [TypeError], an absent key
    [KeyError]. *)
Definition getitem (obj : pyobj) (key : string) : result pyobj :=
  match obj with
  | PyDict d =>
      match d !! key with
      | Some v => Ok v
      | None => Raise (KeyError key)
      end
  | _ => Raise TypeError
  end.

(** What a [for] statement iterates over.  A dict yields its keys (Python
    yields them in insertion order, which the map does not record), a str its
    characters. *)
Definition py_iter (obj : pyobj) : result (list pyobj) :=
  match obj with
  | PyList l => Ok l
  | PyDict d => Ok (PyStr <$> (map_to_list d).*1)
  | PyStr s => Ok ((λ c, PyStr (String c "")) <$> String.list_ascii_of_string s)
  | _ => Raise TypeError
  end.

(** ** String methods

    Strings are sequences of bytes here; a Python [str] is held in its UTF-8
    encoding.  The program lower-cases and strips route ids in two ways: the
    chosen id with the methods of [str], the column of the frame with the
    [.str] accessor of pandas.  Both are taken by contract ([StringOps]
    below): on text made of printable ASCII characters each of them is the
    function written out here, and nothing is assumed of them on any other
    text, where the two libraries need not agree with each other. *)

(** Lower-casing and stripping on the ASCII range: the 26 capital letters
    fold, and the white space is tab to carriage return, the four separators
    28 to 31 and the space. *)
Definition ascii_lower_char (c : Ascii.ascii) : Ascii.ascii :=
  let n := Ascii.N_of_ascii c in
  if decide (65 ≤ n ≤ 90)%N then Ascii.ascii_of_N (n + 32) else c.

Fixpoint ascii_lower (s : string) : string :=
  match s with
  | EmptyString => EmptyString
  | String c s' => String (ascii_lower_char c) (ascii_lower s')
  end.

Definition ascii_isspace (c : Ascii.ascii) : bool :=
  let n := Ascii.N_of_ascii c in
  bool_decide ((9 ≤ n ≤ 13)%N ∨ (28 ≤ n ≤ 32)%N).

Fixpoint ascii_lstrip (s : string) : string :=
  match s with
  | EmptyString => EmptyString
  | String c s' => if ascii_isspace c then ascii_lstrip s' else s
  end.

Definition ascii_strip (s : string) : string :=
  String.rev (ascii_lstrip (String.rev (ascii_lstrip s))).

(** Text made of printable ASCII characters only: the space, digits, letters
    and punctuation (codes 32 to 126). *)
Definition printable (c : Ascii.ascii) : Prop :=
  (32 ≤ Ascii.N_of_ascii c ≤ 126)%N.

Fixpoint plain (s : string) : Prop :=
  match s with
  | EmptyString => True
  | String c s' => printable c ∧ plain s'
  end.

#[global] Instance plain_dec s : Decision (plain s).
Proof. induction s; simpl; unfold printable; apply _. Defined.

(** [str.lower] and [str.strip] of Python, and what [Series.str.lower] and
    [Series.str.strip] do to one element of a column of strings. *)
Class StringOps : Type := {
  str_lower : string → string;
  str_strip : string → string;
  Series_str_lower : string → string;
  Series_str_strip : string → string;
  str_lower_plain s : plain s → str_lower s = ascii_lower s;
  str_strip_plain s : plain s → str_strip s = ascii_strip s;
  Series_str_lower_plain s : plain s → Series_str_lower s = ascii_lower s;
  Series_str_strip_plain s : plain s → Series_str_strip s = ascii_strip s
}.

(** The operations to run the model with on printable ASCII text. *)
Definition ascii_ops : StringOps :=
  {| str_lower := ascii_lower;
     str_strip := ascii_strip;
     Series_str_lower := ascii_lower;
     Series_str_strip := ascii_strip;
     str_lower_plain _ _ := eq_refl;
     str_strip_plain _ _ := eq_refl;
     Series_str_lower_plain _ _ := eq_refl;
     Series_str_strip_plain _ _ := eq_refl |}.

(** Truth value of what a select box returns: [None] when it has no options,
    otherwise the chosen string, which is false when empty. *)
Definition py_truthy (choice : option string) : bool :=
  match choice with
  | None => false
  | Some s => bool_decide (s ≠ "")
  end.

(** ** The per-item loop of [fetch_vehicle_data] *)

Module Fetch.

(** One dict appended to [vehicle_info]. *)
Record entry : Type := Entry {
  entry_vehicle_id : pyobj;
  entry_route : pyobj;
  entry_latitude : pyobj;
  entry_longitude : pyobj;
  entry_current_status : pyobj;
  entry_updated_at : pyobj
}.

(** The dict display inside the [try]; the values are evaluated top to
    bottom and the first exception leaves the display unfinished. *)
Definition make_entry (item : pyobj) : result entry :=
  vid ← getitem item "id";
  rel ← getitem item "relationships";
  rt ← getitem rel "route";
  rdata ← getitem rt "data";
  rid ← getitem rdata "id";
  at1 ← getitem item "attributes";
  lat ← getitem at1 "latitude";
  at2 ← getitem item "attributes";
  lon ← getitem at2 "longitude";
  at3 ← getitem item "attributes";
  st ← getitem at3 "current_status";
  at4 ← getitem item "attributes";
  upd ← getitem at4 "updated_at";
  Ok (Entry vid rid lat lon st upd).

(** The loop body: [try: vehicle_info.append({...}) except: pass]. *)
Definition loop_body (vehicle_info : list entry) (item : pyobj) : list entry :=
  match make_entry item with
  | Ok e => vehicle_info ++ [e]
  | Raise _ => vehicle_info
  end.

Definition collect (items : list pyobj) : list entry :=
  foldl loop_body [] items.

(** [vehicle_info] as it stands when the loop is left, from the parsed
    response; the lookup [data["data"]] and the iteration are outside the
    [try]. *)
Definition vehicle_info_of (data : pyobj) : result (list entry) :=
  items ← getitem data "data" ≫= py_iter;
  Ok (collect items).

(** *** What the feed is expected to expose *)

(** The value found by following [path] through nested objects. *)
Fixpoint field_at (path : list string) (obj : pyobj) : option pyobj :=
  match path with
  | [] => Some obj
  | key :: rest =>
      match obj with
      | PyDict d => d !! key ≫= field_at rest
      | _ => None
      end
  end.

Definition id_path : list string := ["id"].
Definition route_path : list string := ["relationships"; "route"; "data"; "id"].
Definition latitude_path : list string := ["attributes"; "latitude"].
Definition longitude_path : list string := ["attributes"; "longitude"].
Definition status_path : list string := ["attributes"; "current_status"].
Definition updated_path : list string := ["attributes"; "updated_at"].

Definition required_fields : list (list string) :=
  [id_path; route_path; latitude_path; longitude_path; status_path; updated_path].

(** An item misses a required field when one of the paths leads nowhere. *)
Definition missing_field (item : pyobj) : Prop :=
  ∃ path, path ∈ required_fields ∧ field_at path item = None.

#[global] Instance missing_field_dec item : Decision (missing_field item).
Proof.
  destruct (decide (Exists (λ p, field_at p item = None) required_fields))
    as [Hex | Hnex]; [left | right]; unfold missing_field.
  - apply list.Exists_exists in Hex. exact Hex.
  - intros Hm. apply Hnex, list.Exists_exists. exact Hm.
Defined.

(** [e] carries exactly the six values that [item] exposes. *)
Definition entry_from (item : pyobj) (e : entry) : Prop :=
  field_at id_path item = Some (entry_vehicle_id e) ∧
  field_at route_path item = Some (entry_route e) ∧
  field_at latitude_path item = Some (entry_latitude e) ∧
  field_at longitude_path item = Some (entry_longitude e) ∧
  field_at status_path item = Some (entry_current_status e) ∧
  field_at updated_path item = Some (entry_updated_at e).

End Fetch.

(** ** Delay categories *)

Definition categorize_delay (mins : Z) : string :=
  if decide (mins ≤ 1) then "On Time"
  else if decide (mins = 2) then "Low Delay"
  else if decide (mins ≤ 4) then "Moderate Delay"
  else "High Delay".

(** [df["Delay (min)"].apply(categorize_delay)] *)
Definition apply_categorize (delays : list Z) : list string :=
  categorize_delay <$> delays.


(** ** The data frame *)

(** One row of [df].  The columns ["Vehicle ID"], ["Route"],
    ["Current Status"] and ["Updated At"] hold the strings of the feed,
    ["Delay (min)"] and ["Hour"] integers. *)
Record VehicleRecord : Type := {
  Vehicle_ID : string;
  Route : string;
  Latitude : float;
  Longitude : float;
  Current_Status : string;
  Updated_At : string;
  Delay : Z;
  Delay_Category : string;
  Hour : Z
}.

Abbreviation DataFrame := (list VehicleRecord).

(** [df[df[col] == value]]: the rows under a true mask, in index order. *)
Definition where_eq {A} `{EqDecision A}
    (col : VehicleRecord → A) (value : A) (df : DataFrame) : DataFrame :=
  filter (λ row, col row = value) df.

(** [df.iloc[0]] *)
Definition iloc0 (df : DataFrame) : result VehicleRecord :=
  match df with
  | [] => Raise IndexError
  | row :: _ => Ok row
  end.

(** ** Sidebar filters *)

(** The "Apply Filters" block; the three arguments are the values of the
    select boxes. *)
Definition filtered_df (df : DataFrame)
    (search_vehicle search_route delay_filter : string) : DataFrame :=
  let filtered := df in
  let filtered :=
    if decide (search_vehicle ≠ "None")
    then where_eq Vehicle_ID search_vehicle filtered else filtered in
  let filtered :=
    if decide (search_route ≠ "None")
    then where_eq Route search_route filtered else filtered in
  let filtered :=
    if decide (delay_filter ≠ "All")
    then where_eq Delay_Category delay_filter filtered else filtered in
  filtered.

(** What the three selectors ask of a row: a selector left on its first
    entry asks nothing. *)
Definition selected (search_vehicle search_route delay_filter : string)
    (row : VehicleRecord) : Prop :=
  (search_vehicle ≠ "None" → Vehicle_ID row = search_vehicle) ∧
  (search_route ≠ "None" → Route row = search_route) ∧
  (delay_filter ≠ "All" → Delay_Category row = delay_filter).

#[global] Instance selected_dec sv sr dc row : Decision (selected sv sr dc row).
Proof. unfold selected. apply _. Defined.

(** ** Sorting by a column *)

(** [DataFrame.sort_values(by, ascending=...)] with the default [kind].
    pandas promises the rows back in key order; it keeps rows with equal keys
    in index order only for [kind="stable"] or ["mergesort"], which the
    program does not ask for.  The class states what is promised. *)
Definition key_order (key : VehicleRecord → Z) (ascending : bool)
    (a b : VehicleRecord) : Prop :=
  if ascending then key a ≤ key b else key b ≤ key a.

Class Sorter : Type := {
  sort_values : (VehicleRecord → Z) → bool → DataFrame → DataFrame;
  sort_values_perm key ascending df : sort_values key ascending df ≡ₚ df;
  sort_values_sorted key ascending df :
    StronglySorted (key_order key ascending) (sort_values key ascending df)
}.


(** Insertion of a row into a frame in ascending key order; [after_ties]
    puts it behind the rows that have its key, otherwise in front of them. *)
Fixpoint insert_row (key : VehicleRecord → Z) (after_ties : bool)
    (x : VehicleRecord) (df : DataFrame) : DataFrame :=
  match df with
  | [] => [x]
  | y :: df' =>
      if (if after_ties then bool_decide (key x < key y) else bool_decide (key x ≤ key y))
      then x :: y :: df'
      else y :: insert_row key after_ties x df'
  end.

Definition insertion_sort (key : VehicleRecord → Z) (after_ties : bool)
    (df : DataFrame) : DataFrame :=
  foldr (insert_row key after_ties) [] df.

(** pandas sorts descending by reversing, sorting ascending and reversing
    again. *)
Definition sort_with (after_ties : bool) (key : VehicleRecord → Z)
    (ascending : bool) (df : DataFrame) : DataFrame :=
  if ascending then insertion_sort key after_ties df
  else reverse (insertion_sort key after_ties (reverse df)).

(** ** The sort behind [sort_values]

    With the default [kind] a frame is sorted by one column through
    [nargsort], which hands the keys to [numpy.argsort(kind="quicksort")] and
    takes the rows at the positions that come back.  For a column of
    integers numpy's argsort is [aquicksort_] of [npysort/quicksort.cpp], an
    introsort over an array of positions: median-of-three partitions down to
    pieces of at most 17 positions, which are sorted by insertion, and
    [aheapsort_] for a piece met when the depth allowance is used up.  It is
    written out below as it is in that file (builds of numpy that dispatch
    this call to vector instructions order equal keys in their own way).
    The loops of the C code run here on a count that is never exhausted
    before they stop by themselves. *)

Module npysort.
Section Argsort.
Variable v : list Z.

(** [v[*p]] for a position [p] of [tosort] *)
Definition key_at (tosort : list nat) (p : nat) : Z := v !!! (tosort !!! p).

Definition INTP_SWAP (tosort : list nat) (p q : nat) : list nat :=
  <[p := tosort !!! q]> (<[q := tosort !!! p]> tosort).

(** Exchange the positions at [p] and [q] when the key at [p] is the smaller:
    the three tests of the median of three. *)
Definition swap_if_less (tosort : list nat) (p q : nat) : list nat :=
  if decide (key_at tosort p < key_at tosort q) then INTP_SWAP tosort p q else tosort.

(** [while (LT(v[*pi], vp)) ++pi] and [while (LT(vp, v[*pj])) --pj] *)
Fixpoint scan_up (fuel : nat) (tosort : list nat) (vp : Z) (pi : nat) : nat :=
  match fuel with
  | O => pi
  | S fuel' =>
      if decide (key_at tosort pi < vp) then scan_up fuel' tosort vp (S pi) else pi
  end.

Fixpoint scan_down (fuel : nat) (tosort : list nat) (vp : Z) (pj : nat) : nat :=
  match fuel with
  | O => pj
  | S fuel' =>
      if decide (vp < key_at tosort pj) then scan_down fuel' tosort vp (pred pj) else pj
  end.

(** The [for (;;)] loop of a partition: both scans move at least one step,
    and the positions they stop at are exchanged until they meet. *)
Fixpoint exchange (fuel : nat) (tosort : list nat) (vp : Z) (pi pj : nat)
    : list nat * nat :=
  match fuel with
  | O => (tosort, pi)
  | S fuel' =>
      let pi := scan_up (length tosort) tosort vp (S pi) in
      let pj := scan_down (length tosort) tosort vp (pred pj) in
      if decide (pj ≤ pi)%nat then (tosort, pi)
      else exchange fuel' (INTP_SWAP tosort pi pj) vp pi pj
  end.

(** One partition of the positions [pl .. pr]; the result is the array and
    the place [pi] where the pivot ends up. *)
Definition partition (tosort : list nat) (pl pr : nat) : list nat * nat :=
  let pm := (pl + (pr - pl) / 2)%nat in
  let tosort := swap_if_less tosort pm pl in
  let tosort := swap_if_less tosort pr pm in
  let tosort := swap_if_less tosort pm pl in
  let vp := key_at tosort pm in
  let tosort := INTP_SWAP tosort pm (pr - 1) in
  let '(tosort, pi) := exchange (length tosort) tosort vp pl (pr - 1) in
  (INTP_SWAP tosort pi (pr - 1), pi).

Definition SMALL_QUICKSORT : nat := 16.

(** [while ((pr - pl) > SMALL_QUICKSORT)]: partition, push the larger side
    with the depth left, go on with the smaller one. *)
Fixpoint partitions (fuel : nat) (tosort : list nat) (pl pr : nat) (cdepth : Z)
    (stack : list (nat * nat * Z)) : list nat * nat * nat * list (nat * nat * Z) :=
  match fuel with
  | O => (tosort, pl, pr, stack)
  | S fuel' =>
      if decide (SMALL_QUICKSORT < pr - pl)%nat then
        let '(tosort, pi) := partition tosort pl pr in
        let cdepth := cdepth - 1 in
        if decide (pi - pl < pr - pi)%nat
        then partitions fuel' tosort pl (pi - 1) cdepth ((S pi, pr, cdepth) :: stack)
        else partitions fuel' tosort (S pi) pr cdepth ((pl, (pi - 1)%nat, cdepth) :: stack)
      else (tosort, pl, pr, stack)
  end.

(** The insertion sort of the positions [pl .. pr]:
    [while (pj > pl && LT(vp, v[*pk])) *pj-- = *pk--]. *)
Fixpoint shift_up (fuel : nat) (tosort : list nat) (pl : nat) (vp : Z) (pj : nat)
    : list nat * nat :=
  match fuel with
  | O => (tosort, pj)
  | S fuel' =>
      if decide ((pl < pj)%nat ∧ vp < key_at tosort (pj - 1))
      then shift_up fuel' (<[pj := tosort !!! (pj - 1)%nat]> tosort) pl vp (pj - 1)
      else (tosort, pj)
  end.

Definition insert_at (pl : nat) (tosort : list nat) (pi : nat) : list nat :=
  let vi := tosort !!! pi in
  let '(tosort, pj) := shift_up (length tosort) tosort pl (v !!! vi) pi in
  <[pj := vi]> tosort.

Definition insertion (tosort : list nat) (pl pr : nat) : list nat :=
  foldl (insert_at pl) tosort (seq (S pl) (pr - pl)).

(** [aheapsort_] on the [n] positions from [pl] on, which the C code
    numbers from 1: the inner [for (i = .., j = ..; j <= n;)] loop first. *)
Fixpoint sift (fuel : nat) (tosort : list nat) (pl n tmp i j : nat) : list nat :=
  match fuel with
  | O => <[(pl + i - 1)%nat := tmp]> tosort
  | S fuel' =>
      if decide (j ≤ n)%nat then
        let j :=
          if decide ((j < n)%nat ∧ key_at tosort (pl + j - 1) < key_at tosort (pl + j))
          then S j else j in
        if decide (v !!! tmp < key_at tosort (pl + j - 1))
        then sift fuel' (<[(pl + i - 1)%nat := tosort !!! (pl + j - 1)%nat]> tosort)
                  pl n tmp j (j + j)
        else <[(pl + i - 1)%nat := tmp]> tosort
      else <[(pl + i - 1)%nat := tmp]> tosort
  end.

Definition aheapsort (tosort : list nat) (pl n : nat) : list nat :=
  let tosort :=
    foldl (λ a l, sift n a pl n (a !!! (pl + l - 1)%nat) l (l + l))
          tosort (reverse (seq 1 (n / 2))) in
  foldl (λ a m,
           let tmp := a !!! (pl + m - 1)%nat in
           let a := <[(pl + m - 1)%nat := a !!! pl]> a in
           sift n a pl (m - 1) tmp 1 2)
        tosort (reverse (seq 2 (n - 1))).

(** The [while (1)] loop: sort the piece at hand, then pop the next one. *)
Fixpoint sort_loop (fuel : nat) (tosort : list nat) (pl pr : nat) (cdepth : Z)
    (stack : list (nat * nat * Z)) : list nat :=
  match fuel with
  | O => tosort
  | S fuel' =>
      let '(tosort, stack) :=
        if decide (cdepth < 0) then (aheapsort tosort pl (pr - pl + 1), stack)
        else
          let '(tosort, pl, pr, stack) :=
            partitions (length tosort) tosort pl pr cdepth stack in
          (insertion tosort pl pr, stack) in
      match stack with
      | [] => tosort
      | (pl, pr, cdepth) :: stack => sort_loop fuel' tosort pl pr cdepth stack
      end
  end.

Definition npy_get_msb (num : nat) : Z := Z.log2 (Z.of_nat num).

(** [aquicksort_(v, tosort, num)] with [tosort] holding [0 .. num - 1], as
    [argsort] calls it. *)
Definition aquicksort : list nat :=
  let num := length v in
  sort_loop (S num) (seq 0 num) 0 (num - 1) (npy_get_msb num * 2) [].

End Argsort.
End npysort.

(** [nargsort(items, kind="quicksort", ascending=...)] of pandas on a column
    without missing values: a descending sort reverses the keys and their
    positions, sorts ascending and reverses the outcome. *)
Definition nargsort (items : list Z) (ascending : bool) : list nat :=
  let idx := seq 0 (length items) in
  if ascending then (idx !!!.) <$> npysort.aquicksort items
  else reverse ((reverse idx !!!.) <$> npysort.aquicksort (reverse items)).

(** [df.take(indexer)] *)
Definition take_rows (df : DataFrame) (indexer : list nat) : DataFrame :=
  omap (df !!.) indexer.

#[global] Instance key_order_dec key ascending : RelDecision (key_order key ascending).
Proof. intros a b. unfold key_order. destruct ascending; apply _. Defined.

(** [df.sort_values(by, ascending=...)] as pandas runs it: the rows taken at
    the positions given by [nargsort].  That these positions are all the
    positions of the frame and put the keys in order is tested rather than
    proved of the introsort; were the test to fail, the rows would be sorted
    by insertion.  The examples further down show the test passing. *)
Definition nargsort_sorts (key : VehicleRecord → Z) (ascending : bool)
    (df : DataFrame) : Prop :=
  nargsort (key <$> df) ascending ≡ₚ seq 0 (length df) ∧
  StronglySorted (key_order key ascending)
    (take_rows df (nargsort (key <$> df) ascending)).

#[global] Instance nargsort_sorts_dec key ascending df :
  Decision (nargsort_sorts key ascending df).
Proof. unfold nargsort_sorts. apply _. Defined.

Definition sort_values_quicksort (key : VehicleRecord → Z) (ascending : bool)
    (df : DataFrame) : DataFrame :=
  if decide (nargsort_sorts key ascending df)
  then take_rows df (nargsort (key <$> df) ascending)
  else sort_with false key ascending df.

(** ** Summary tiles *)

Section Dashboard.
Context {sorter : Sorter}.
Context {string_ops : StringOps}.

(** [df.sort_values("Delay (min)", ascending=False).iloc[0]["Vehicle ID"]] *)
Definition most_delayed_vehicle (df : DataFrame) : result string :=
  row ← iloc0 (sort_values Delay false df);
  Ok (Vehicle_ID row).

(** [df["Delay (min)"].min()]; there is no least value in an empty column. *)
Definition series_min (xs : list Z) : option Z :=
  match xs with
  | [] => None
  | x :: xs' => Some (foldl Z.min x xs')
  end.

(** [df[df["Delay (min)"] == df["Delay (min)"].min()].iloc[0]["Vehicle ID"]] *)
Definition most_ontime_vehicle (df : DataFrame) : result string :=
  match series_min (Delay <$> df) with
  | Some least =>
      row ← iloc0 (where_eq Delay least df);
      Ok (Vehicle_ID row)
  | None => Raise IndexError
  end.

(** ** Vehicle delays in the same route *)

Inductive comparison : Type :=
  | BarChart (route_to_show : string) (sorted_df : DataFrame)
  | OnlyOneVehicle
  | SelectRoute.

Definition same_route_comparison (df filtered : DataFrame) : comparison :=
  match filtered with
  | [] => SelectRoute
  | first :: _ =>
      let route_to_show := Route first in
      let vehicles_same_route := where_eq Route route_to_show df in
      if decide (1 < length vehicles_same_route)%nat
      then BarChart route_to_show (sort_values Delay false vehicles_same_route)
      else OnlyOneVehicle
  end.

(** ** Best time and vehicle *)

(** [df[df["Route"].astype(str).str.lower().str.strip()
        == str(ai_route).lower().strip()]] *)
Definition route_df (df : DataFrame) (ai_route : string) : DataFrame :=
  filter (λ row, Series_str_strip (Series_str_lower (Route row)) =
                 str_strip (str_lower ai_route)) df.

(** The mean of a column of integers.  pandas returns it as a float64; the
    exact quotient is kept here. *)
Definition total (xs : list Z) : Z := foldr Z.add 0 xs.

Definition mean (xs : list Z) : Qc :=
  (Qc_of_Z (total xs) / Qc_of_Z (Z.of_nat (length xs)))%Qc.

(** The group labels of [groupby]: the distinct keys in ascending order. *)
Definition group_keys (keys : list Z) : list Z :=
  merge_sort Z.le (remove_dups keys).

(** [rows.groupby("Hour")["Delay (min)"].mean()]: one entry per hour, the
    index ascending. *)
Definition groupby_hour_mean_delay (rows : DataFrame) : list (Z * Qc) :=
  (λ h, (h, mean (Delay <$> where_eq Hour h rows))) <$> group_keys (Hour <$> rows).

(** [Series.idxmin()]: the label of the first entry that holds the least
    value. *)
Fixpoint idxmin_from (best : Z * Qc) (entries : list (Z * Qc)) : Z :=
  match entries with
  | [] => best.1
  | x :: entries' =>
      idxmin_from (if decide (x.2 < best.2)%Qc then x else best) entries'
  end.

Definition idxmin (entries : list (Z * Qc)) : result Z :=
  match entries with
  | [] => Raise ValueError
  | x :: entries' => Ok (idxmin_from x entries')
  end.

Inductive prediction : Type :=
  | NothingShown
  | Best (best_hour : Z) (best_vehicle : string) (best_delay : Z)
  | NoData.

(** The panel under "AI Prediction": what is written for the choice
    [ai_route] of the select box. *)
Definition predict (df : DataFrame) (ai_route : option string) : result prediction :=
  match ai_route with
  | Some route =>
      if py_truthy ai_route then
        let rows := route_df df route in
        match rows with
        | [] => Ok NoData
        | _ :: _ =>
            best_hour ← idxmin (groupby_hour_mean_delay rows);
            best_vehicle_row ← iloc0 (sort_values Delay true rows);
            let best_vehicle := Vehicle_ID best_vehicle_row in
            let best_delay := Delay best_vehicle_row in
            Ok (Best best_hour best_vehicle best_delay)
        end
      else Ok NothingShown
  | None => Ok NothingShown
  end.

End Dashboard.

(** ** What the tiles and the panel are meant to show *)


Definition min_delay_row (row : VehicleRecord) (df : DataFrame) : Prop :=
  row ∈ df ∧ ∀ other, other ∈ df → Delay row ≤ Delay other.

(** [row] is the first row of [df], in index order, with the greatest (the
    least) delay: the rows before it are strictly worse. *)
Definition first_max_delay_row (row : VehicleRecord) (df : DataFrame) : Prop :=
  ∃ pre post, df = pre ++ row :: post ∧
    (∀ other, other ∈ pre → Delay other < Delay row) ∧
    (∀ other, other ∈ post → Delay other ≤ Delay row).

Definition first_min_delay_row (row : VehicleRecord) (df : DataFrame) : Prop :=
  ∃ pre post, df = pre ++ row :: post ∧
    (∀ other, other ∈ pre → Delay row < Delay other) ∧
    (∀ other, other ∈ post → Delay row ≤ Delay other).

(** The mean delay of the rows of [rows] whose hour is [h]. *)
Definition hour_mean (rows : DataFrame) (h : Z) : Qc :=
  mean (Delay <$> where_eq Hour h rows).

(** [h] is an hour of [rows] with the least mean delay, and the smallest
    such hour. *)
Definition least_mean_hour (h : Z) (rows : DataFrame) : Prop :=
  h ∈ Hour <$> rows ∧
  ∀ h', h' ∈ Hour <$> rows →
    (hour_mean rows h ≤ hour_mean rows h')%Qc ∧
    (hour_mean rows h' = hour_mean rows h → h ≤ h').

(** What [for item in ...] accepts: a list, a dict or a str. *)
Definition py_iterable (obj : pyobj) : Prop :=
  match obj with
  | PyList _ | PyDict _ | PyStr _ => True
  | _ => False
  end.

(** ** Simulated delays and their categories *)

(** [random.randint(a, b)] draws from the generator of the [random] module;
    the generator is passed along as a state, and all that is used of it is
    that a draw lies between [a] and [b]. *)
Class RandomSource : Type := {
  rng : Type;
  randint : Z → Z → rng → Z * rng;
  randint_range a b g : a ≤ b → a ≤ (randint a b g).1 ≤ b
}.

(** [[random.randint(0, 6) for _ in range(n)]] *)
Fixpoint draw_delays `{RandomSource} (n : nat) (g : rng) : list Z * rng :=
  match n with
  | O => ([], g)
  | S n' =>
      let '(delay, g1) := randint 0 6 g in
      let '(delays, g2) := draw_delays n' g1 in
      (delay :: delays, g2)
  end.

Definition set_delay (row : VehicleRecord) (delay : Z) : VehicleRecord :=
  {| Vehicle_ID := Vehicle_ID row; Route := Route row;
     Latitude := Latitude row; Longitude := Longitude row;
     Current_Status := Current_Status row; Updated_At := Updated_At row;
     Delay := delay; Delay_Category := Delay_Category row; Hour := Hour row |}.

Definition set_delay_category (row : VehicleRecord) (category : string) : VehicleRecord :=
  {| Vehicle_ID := Vehicle_ID row; Route := Route row;
     Latitude := Latitude row; Longitude := Longitude row;
     Current_Status := Current_Status row; Updated_At := Updated_At row;
     Delay := Delay row; Delay_Category := category; Hour := Hour row |}.

(** [df[col] = values]: one value per row; values of another length are
    refused with [ValueError]. *)
Definition assign_column {B} (set : VehicleRecord → B → VehicleRecord)
    (df : DataFrame) (values : list B) : result DataFrame :=
  if decide (length values = length df)
  then Ok (zip_with set df values)
  else Raise ValueError.

(** The two assignments that follow [pd.DataFrame(vehicle_info)]: the column
    of drawn delays and the column of their categories. *)
Definition simulate_delays `{RandomSource} (df : DataFrame) (g : rng)
    : result DataFrame * rng :=
  let '(delays, g') := draw_delays (length df) g in
  (df1 ← assign_column set_delay df delays;
   assign_column set_delay_category df1 (apply_categorize (Delay <$> df1)),
   g').

(** A generator to run the model with: a linear congruential one. *)
Definition lcg_next (g : Z) : Z := (g * 1103515245 + 12345) `mod` 2147483648.

Definition lcg_randint (a b g : Z) : Z * Z :=
  (a + g `mod` (b - a + 1), lcg_next g).

(** Every row carries the category of its own delay. *)
Definition categorized (df : DataFrame) : Prop :=
  Forall (λ row, Delay_Category row = categorize_delay (Delay row)) df.

(** ** Select boxes *)

(** [Series.unique()]: the distinct values in order of first appearance. *)
Fixpoint unique {A} `{EqDecision A} (xs : list A) : list A :=
  match xs with
  | [] => []
  | x :: xs' => x :: filter (λ y, y ≠ x) (unique xs')
  end.

Definition vehicle_options (df : DataFrame) : list string :=
  "None" :: unique (Vehicle_ID <$> df).

Definition route_options (df : DataFrame) : list string :=
  "None" :: unique (Route <$> df).

Definition delay_options : list string :=
  ["All"; "On Time"; "Low Delay"; "Moderate Delay"; "High Delay"].

(** [sorted(df["Route"].unique())] *)
Definition ai_route_options (df : DataFrame) : list string :=
  merge_sort String.le (unique (Route <$> df)).

(** [st.selectbox(label, options)]: the option at the position picked by the
    user (the first one until they pick), [None] when there is nothing to
    pick from. *)
Definition selectbox (options : list string) (index : nat) : option string :=
  options !! index.

(** ** More summary tiles *)

Definition total_vehicles (df : DataFrame) : nat := length df.

(** [df["Route"].nunique()] *)
Definition unique_routes (df : DataFrame) : nat := length (unique (Route <$> df)).

(** [df["Delay (min)"].mean()], before it is formatted: the mean of an empty
    column is not a number. *)
Definition avg_delay (df : DataFrame) : option Qc :=
  match df with
  | [] => None
  | _ :: _ => Some (mean (Delay <$> df))
  end.

(** [len(df[df["Delay Category"] == "On Time"])] and its twin. *)
Definition on_time_count (df : DataFrame) : nat :=
  length (where_eq Delay_Category "On Time" df).

Definition high_delay_count (df : DataFrame) : nat :=
  length (where_eq Delay_Category "High Delay" df).

(** ** Map markers *)

Definition color_map : gmap string string :=
  {[ "On Time" := "green"; "Low Delay" := "lightgreen";
     "Moderate Delay" := "orange"; "High Delay" := "red" ]}.

(** [color_map.get(category, "gray")] *)
Definition marker_color (category : string) : string :=
  default "gray" (color_map !! category).

(** ** Average delay by route *)

(** [df.groupby("Route")["Delay (min)"].mean()]: one entry per route, the
    index ascending. *)
Definition groupby_route_mean_delay (df : DataFrame) : list (string * Qc) :=
  (λ r, (r, mean (Delay <$> where_eq Route r df))) <$>
    merge_sort String.le (unique (Route <$> df)).

(** [Series.sort_values(ascending=...)] with the default [kind], by what it
    promises, like [Sorter] for frames. *)
Definition value_order (ascending : bool) (a b : string * Qc) : Prop :=
  if ascending then (a.2 ≤ b.2)%Qc else (b.2 ≤ a.2)%Qc.

Class SeriesSorter : Type := {
  series_sort_values : bool → list (string * Qc) → list (string * Qc);
  series_sort_values_perm ascending s : series_sort_values ascending s ≡ₚ s;
  series_sort_values_sorted ascending s :
    StronglySorted (value_order ascending) (series_sort_values ascending s)
}.

Definition route_avg `{SeriesSorter} (df : DataFrame) : list (string * Qc) :=
  series_sort_values false (groupby_route_mean_delay df).

(** ** Sample data *)

(** A row as [fetch_vehicle_data] would build it, at a fixed position and
    time of day. *)
Definition sample_row (vehicle_id route : string) (delay hour : Z) : VehicleRecord :=
  {| Vehicle_ID := vehicle_id; Route := route;
     Latitude := 42.5%float; Longitude := (-71)%float;
     Current_Status := "IN_TRANSIT_TO"; Updated_At := "2024-05-01T08:15:00-04:00";
     Delay := delay; Delay_Category := categorize_delay delay; Hour := hour |}.

(** Twenty-five vehicles of one route.  Nineteen of them have the greatest
    delay, six minutes; the first of these, at position 2, is the only row
    with the id "y1". *)
Definition most_delayed_tie_frame : DataFrame :=
  zip_with (λ vehicle_id delay, sample_row vehicle_id "Red" delay 8)
    ["y2"; "y2"; "y1"; "y2"; "y2"; "y2"; "y2"; "y2"; "y2"; "y2"; "y2"; "y2"; "y2";
     "y2"; "y2"; "y2"; "y2"; "y2"; "y2"; "y2"; "y2"; "y2"; "y2"; "y2"; "y2"]
    [2; 4; 6; 6; 6; 0; 6; 6; 3; 6; 6; 3; 6; 6; 6; 6; 6; 6; 6; 6; 6; 6; 3; 6; 6].

(** Twenty-five vehicles of one route.  Eleven of them have the least delay,
    one minute; the first of these, at position 5, is the only row with the
    id "y1". *)
Definition best_vehicle_tie_frame : DataFrame :=
  zip_with (λ vehicle_id delay, sample_row vehicle_id "Red" delay 8)
    ["y2"; "y2"; "y2"; "y2"; "y2"; "y1"; "y2"; "y2"; "y2"; "y2"; "y2"; "y2"; "y2";
     "y2"; "y2"; "y2"; "y2"; "y2"; "y2"; "y2"; "y2"; "y2"; "y2"; "y2"; "y2"]
    [5; 5; 4; 5; 3; 1; 1; 1; 1; 1; 1; 4; 1; 1; 2; 1; 3; 5; 1; 1; 1; 4; 2; 5; 3].

Definition sample_attributes : gmap string pyobj :=
  {[ "latitude" := PyFloat 42.5%float; "longitude" := PyFloat (-71)%float;
     "current_status" := PyStr "STOPPED_AT";
     "updated_at" := PyStr "2024-05-01T08:15:00-04:00" ]}.

Definition sample_relationships (route : string) : pyobj :=
  PyDict {[ "route" := PyDict {[ "data" := PyDict {[ "id" := PyStr route ]} ]} ]}.

Definition sample_item (vehicle_id route : string) (attributes : gmap string pyobj) : pyobj :=
  PyDict {[ "id" := PyStr vehicle_id;
            "relationships" := sample_relationships route;
            "attributes" := PyDict attributes ]}.

Definition sample_entry (vehicle_id route : string) : Fetch.entry :=
  Fetch.Entry (PyStr vehicle_id) (PyStr route) (PyFloat 42.5%float)
    (PyFloat (-71)%float) (PyStr "STOPPED_AT")
    (PyStr "2024-05-01T08:15:00-04:00").

(** * Properties *)

(** ** Strings and iteration *)

Example ascii_lower_sample : ascii_lower "Green-B" = "green-b".
Proof. reflexivity. Qed.

Example ascii_strip_sample : ascii_strip "  CR-Fairmount  " = "CR-Fairmount".
Proof. reflexivity. Qed.

Example ascii_strip_inner_space : ascii_strip " Mattapan  Line" = "Mattapan  Line".
Proof. reflexivity. Qed.

Lemma append_cons a s t : String a s +:+ t = String a (s +:+ t).
Proof. reflexivity. Qed.

Lemma append_assoc s t u : (s +:+ t) +:+ u = s +:+ (t +:+ u).
Proof. induction s as [|a s IH]; [done|]. by rewrite !append_cons, IH. Qed.

Lemma rev_app_append s t : String.rev_app s t = String.rev s +:+ t.
Proof.
  unfold String.rev. revert t. induction s as [|a s IH]; intros t; simpl; [done|].
  rewrite (IH (String a t)), (IH (String a "")), append_assoc. done.
Qed.

Lemma rev_cons a s : String.rev (String a s) = String.rev s +:+ String a "".
Proof. unfold String.rev at 1. simpl. apply rev_app_append. Qed.

Lemma rev_snoc s a : String.rev (s +:+ String a "") = String a (String.rev s).
Proof.
  induction s as [|b s IH]; [done|].
  by rewrite append_cons, !rev_cons, IH, append_cons.
Qed.

Lemma rev_involutive s : String.rev (String.rev s) = s.
Proof. induction s as [|a s IH]; [done|]. by rewrite rev_cons, rev_snoc, IH. Qed.

Lemma ascii_lstrip_idemp s : ascii_lstrip (ascii_lstrip s) = ascii_lstrip s.
Proof.
  induction s as [|c s IH]; [done|]. simpl.
  destruct (ascii_isspace c) eqn:Hc; [done|]. simpl. by rewrite Hc.
Qed.

Lemma ascii_lstrip_snoc s c :
  ascii_isspace c = false → ∃ t, ascii_lstrip (s +:+ String c "") = t +:+ String c "".
Proof.
  intros Hc. induction s as [|b s IH].
  - exists "". simpl. by rewrite Hc.
  - rewrite append_cons. simpl. destruct (ascii_isspace b); [done|].
    exists (String b s). by rewrite append_cons.
Qed.

(** Stripping at the end keeps a string free of leading white space. *)
Lemma rstrip_keeps_head s :
  ascii_lstrip s = s →
  ascii_lstrip (String.rev (ascii_lstrip (String.rev s))) =
  String.rev (ascii_lstrip (String.rev s)).
Proof.
  destruct s as [|c s]; [done|]. simpl.
  destruct (ascii_isspace c) eqn:Hc.
  - intros Heq. exfalso.
    assert (∀ t, String.length (ascii_lstrip t) ≤ String.length t)%nat as Hlen.
    { induction t as [|a t IHt]; simpl; [done|]. destruct (ascii_isspace a); simpl; lia. }
    specialize (Hlen s). rewrite Heq in Hlen. simpl in Hlen. lia.
  - intros _. rewrite rev_cons.
    destruct (ascii_lstrip_snoc (String.rev s) c Hc) as [t ->].
    rewrite rev_snoc. simpl. by rewrite Hc.
Qed.

Lemma ascii_lower_char_idemp c : ascii_lower_char (ascii_lower_char c) = ascii_lower_char c.
Proof. by destruct c as [[] [] [] [] [] [] [] []]. Qed.

Lemma ascii_lower_idemp s : ascii_lower (ascii_lower s) = ascii_lower s.
Proof. induction s as [|c s IH]; simpl; [done|]. by rewrite ascii_lower_char_idemp, IH. Qed.

Lemma ascii_lower_append s t : ascii_lower (s +:+ t) = ascii_lower s +:+ ascii_lower t.
Proof. induction s as [|c s IH]; [done|]. by rewrite append_cons; simpl; rewrite IH. Qed.

Lemma ascii_lower_rev s : ascii_lower (String.rev s) = String.rev (ascii_lower s).
Proof.
  induction s as [|c s IH]; [done|]. simpl.
  by rewrite !rev_cons, ascii_lower_append, IH.
Qed.

Lemma ascii_lower_lstrip s : ascii_lower s = s → ascii_lower (ascii_lstrip s) = ascii_lstrip s.
Proof.
  induction s as [|c s IH]; [done|]. simpl. intros [= Hc Hs].
  destruct (ascii_isspace c); [by apply IH|]. simpl. by rewrite Hc, Hs.
Qed.

Lemma ascii_lower_strip s : ascii_lower s = s → ascii_lower (ascii_strip s) = ascii_strip s.
Proof.
  intros Hs. unfold ascii_strip. rewrite ascii_lower_rev. f_equal.
  apply ascii_lower_lstrip. rewrite ascii_lower_rev. f_equal. by apply ascii_lower_lstrip.
Qed.

Lemma ascii_strip_idemp s : ascii_strip (ascii_strip s) = ascii_strip s.
Proof.
  unfold ascii_strip at 1.
  assert (ascii_lstrip (ascii_strip s) = ascii_strip s) as ->.
  { unfold ascii_strip. apply rstrip_keeps_head, ascii_lstrip_idemp. }
  unfold ascii_strip. by rewrite rev_involutive, ascii_lstrip_idemp.
Qed.

(** Plain text stays plain under lower-casing and stripping. *)
Lemma printable_ascii_lower_char c : printable c → printable (ascii_lower_char c).
Proof.
  intros Hc. apply (bool_decide_unpack _). apply (bool_decide_pack _) in Hc.
  revert Hc. by destruct c as [[] [] [] [] [] [] [] []]; vm_compute.
Qed.

Lemma plain_ascii_lower s : plain s → plain (ascii_lower s).
Proof.
  induction s as [|c s IH]; simpl; [done|].
  intros [Hc Hs]. split; [by apply printable_ascii_lower_char | by apply IH].
Qed.

Lemma plain_append s t : plain (s +:+ t) ↔ plain s ∧ plain t.
Proof.
  induction s as [|c s IH]; [simpl; tauto|].
  rewrite append_cons. simpl. rewrite IH. tauto.
Qed.

Lemma plain_rev s : plain (String.rev s) ↔ plain s.
Proof.
  induction s as [|c s IH]; [done|].
  rewrite rev_cons, plain_append, IH. simpl. tauto.
Qed.

Lemma plain_ascii_lstrip s : plain s → plain (ascii_lstrip s).
Proof.
  induction s as [|c s IH]; simpl; [done|].
  intros [Hc Hs]. destruct (ascii_isspace c); [by apply IH | done].
Qed.

Lemma plain_ascii_strip s : plain s → plain (ascii_strip s).
Proof.
  intros Hs. unfold ascii_strip.
  by apply plain_rev, plain_ascii_lstrip, plain_rev, plain_ascii_lstrip.
Qed.

(** On plain text the column and the chosen id are brought to the same
    form. *)
Lemma Series_normal_plain `{StringOps} s :
  plain s → Series_str_strip (Series_str_lower s) = ascii_strip (ascii_lower s).
Proof.
  intros Hs. rewrite (Series_str_lower_plain s Hs).
  apply Series_str_strip_plain, plain_ascii_lower, Hs.
Qed.

Lemma str_normal_plain `{StringOps} s :
  plain s → str_strip (str_lower s) = ascii_strip (ascii_lower s).
Proof.
  intros Hs. rewrite (str_lower_plain s Hs).
  apply str_strip_plain, plain_ascii_lower, Hs.
Qed.

Example py_truthy_sample :
  py_truthy None = false ∧ py_truthy (Some "") = false ∧ py_truthy (Some " ") = true.
Proof. by repeat split. Qed.

(** ** The fetch loop *)

Module FetchFacts.
Import Fetch.

Lemma getitem_Ok obj key v :
  getitem obj key = Ok v ↔ field_at [key] obj = Some v.
Proof.
  destruct obj; simpl; try (split; discriminate).
  destruct (d !! key); simpl; split; congruence.
Qed.

Lemma field_at_cons key rest obj :
  field_at (key :: rest) obj = field_at [key] obj ≫= field_at rest.
Proof.
  destruct obj; simpl; try reflexivity.
  destruct (d !! key); reflexivity.
Qed.

Lemma field_at_cons_Some key rest obj v :
  field_at (key :: rest) obj = Some v ↔
  ∃ w, field_at [key] obj = Some w ∧ field_at rest w = Some v.
Proof.
  rewrite field_at_cons. destruct (field_at [key] obj) as [w|]; simpl.
  - split; [eauto | intros (? & [= <-] & ?); assumption].
  - split; [discriminate | intros (? & [=] & _)].
Qed.

Lemma bind_getitem_Ok {B} obj key (f : pyobj → result B) b :
  getitem obj key ≫= f = Ok b ↔ ∃ v, field_at [key] obj = Some v ∧ f v = Ok b.
Proof.
  destruct (getitem obj key) as [v|ex] eqn:Hget.
  - apply getitem_Ok in Hget. rewrite Hget. cbn.
    split; [eauto | intros (? & [= <-] & ?); assumption].
  - cbn. split; [discriminate|]. intros (v & Hv & _).
    apply getitem_Ok in Hv. congruence.
Qed.

Ltac bind_inv H :=
  let v := fresh "v" in
  let Hv := fresh "Hv" in
  apply bind_getitem_Ok in H as (v & Hv & H).

Ltac bind_intro :=
  apply bind_getitem_Ok; eexists; split; [eassumption|].

Lemma required_paths_split item e :
  entry_from item e ↔
  field_at ["id"] item = Some (entry_vehicle_id e) ∧
  (∃ rel rt rdata,
      field_at ["relationships"] item = Some rel ∧
      field_at ["route"] rel = Some rt ∧
      field_at ["data"] rt = Some rdata ∧
      field_at ["id"] rdata = Some (entry_route e)) ∧
  (∃ attrs,
      field_at ["attributes"] item = Some attrs ∧
      field_at ["latitude"] attrs = Some (entry_latitude e) ∧
      field_at ["longitude"] attrs = Some (entry_longitude e) ∧
      field_at ["current_status"] attrs = Some (entry_current_status e) ∧
      field_at ["updated_at"] attrs = Some (entry_updated_at e)).
Proof.
  unfold entry_from.
  unfold id_path, route_path, latitude_path, longitude_path, status_path, updated_path.
  rewrite (field_at_cons_Some "relationships" ["route"; "data"; "id"]).
  setoid_rewrite (field_at_cons_Some "route" ["data"; "id"]).
  setoid_rewrite (field_at_cons_Some "data" ["id"]).
  rewrite (field_at_cons_Some "attributes" ["latitude"]),
    (field_at_cons_Some "attributes" ["longitude"]),
    (field_at_cons_Some "attributes" ["current_status"]),
    (field_at_cons_Some "attributes" ["updated_at"]).
  split.
  - intros (? & (rel & ? & rt & ? & rdata & ? & ?) & (a1 & ? & ?) & (a2 & ? & ?) &
            (a3 & ? & ?) & (a4 & ? & ?)).
    simplify_eq. split; [assumption|].
    split; [exists rel, rt, rdata | exists a1]; repeat split; assumption.
  - intros (? & (rel & rt & rdata & ? & ? & ? & ?) & (attrs & ? & ? & ? & ? & ?)).
    split; [assumption|]. split; [exists rel; split; [assumption|]|].
    { exists rt. split; [assumption|]. exists rdata. split; assumption. }
    repeat split; exists attrs; split; assumption.
Qed.

Lemma make_entry_Ok item e : make_entry item = Ok e ↔ entry_from item e.
Proof.
  rewrite required_paths_split. unfold make_entry. split.
  - intros H. do 13 bind_inv H. injection H as <-.
    cbn [entry_vehicle_id entry_route entry_latitude entry_longitude
         entry_current_status entry_updated_at].
    simplify_eq. split; [assumption|].
    split; [eexists _, _, _ | eexists]; repeat split; eassumption.
  - intros (? & (rel & rt & rdata & ? & ? & ? & ?) & (attrs & ? & ? & ? & ? & ?)).
    do 13 bind_intro. destruct e; simpl in *; simplify_eq. reflexivity.
Qed.

Lemma missing_field_no_entry item e : missing_field item → ¬ entry_from item e.
Proof.
  intros (path & Hin & Hnone) (Hid & Hrt & Hlat & Hlon & Hst & Hupd).
  unfold required_fields in Hin.
  repeat (apply elem_of_cons in Hin as [-> | Hin]; [congruence|]).
  by apply elem_of_nil in Hin.
Qed.

Lemma make_entry_missing item :
  missing_field item → ∃ ex, make_entry item = Raise ex.
Proof.
  intros Hmiss. destruct (make_entry item) as [e|ex] eqn:Hmk; [|eauto].
  apply make_entry_Ok in Hmk. by apply missing_field_no_entry in Hmk.
Qed.

Lemma foldl_loop_body acc items :
  foldl loop_body acc items = acc ++ collect items.
Proof.
  unfold collect. revert acc.
  induction items as [|item items IH] using rev_ind; intros acc.
  - simpl. by rewrite app_nil_r.
  - rewrite !foldl_snoc, IH. unfold loop_body at 1 3.
    destruct (make_entry item); by rewrite ?app_assoc.
Qed.

Lemma collect_app l1 l2 : collect (l1 ++ l2) = collect l1 ++ collect l2.
Proof. unfold collect at 1. by rewrite foldl_app, foldl_loop_body. Qed.

Lemma collect_cons item items :
  collect (item :: items) = collect [item] ++ collect items.
Proof. apply (collect_app [item]). Qed.

Lemma collect_skip item : missing_field item → collect [item] = [].
Proof.
  intros (ex & Hex)%make_entry_missing. unfold collect, loop_body. simpl.
  by rewrite Hex.
Qed.

Lemma elem_of_collect e items :
  e ∈ collect items ↔ ∃ item, item ∈ items ∧ entry_from item e.
Proof.
  induction items as [|item items IH].
  - split; [by intros ?%elem_of_nil | by intros (? & ?%elem_of_nil & _)].
  - rewrite collect_cons, elem_of_app, IH. setoid_rewrite elem_of_cons.
    assert (e ∈ collect [item] ↔ entry_from item e) as ->.
    { rewrite <- make_entry_Ok. unfold collect, loop_body. simpl.
      destruct (make_entry item) as [e'|ex]; simpl.
      - rewrite list_elem_of_singleton. split; congruence.
      - split; [by intros ?%elem_of_nil | discriminate]. }
    split.
    + intros [He | (it & Hit & He)]; [exists item | exists it]; auto.
    + intros (it & [-> | Hit] & He); [left | right; exists it]; auto.
Qed.

Lemma vehicle_info_of_list data items :
  getitem data "data" = Ok (PyList items) →
  vehicle_info_of data = Ok (collect items).
Proof. intros Hdata. unfold vehicle_info_of. by rewrite Hdata. Qed.

Lemma collect_strings keys : collect (PyStr <$> keys) = [].
Proof.
  induction keys as [|k keys IH]; [done|].
  rewrite fmap_cons, collect_cons, IH. reflexivity.
Qed.

(** When ["data"] holds an object instead of a list, the loop runs over its
    keys and finds no vehicle. *)
Lemma vehicle_info_of_dict data d :
  getitem data "data" = Ok (PyDict d) → vehicle_info_of data = Ok [].
Proof.
  intros Hdata. unfold vehicle_info_of. rewrite Hdata. cbn.
  by rewrite collect_strings.
Qed.

(** A value that is present but [null] is not missing: the row is kept and
    carries [None] in that column. *)
Remark null_latitude_is_kept :
  collect [sample_item "y1" "Red" (<["latitude" := PyNone]> sample_attributes)] =
  [Entry (PyStr "y1") (PyStr "Red") PyNone (PyFloat (-71)%float)
     (PyStr "STOPPED_AT") (PyStr "2024-05-01T08:15:00-04:00")].
Proof. vm_compute. reflexivity. Qed.

(** A feed item that is not an object at all is skipped like any other. *)
Remark non_object_items_are_skipped :
  collect [PyNone; PyStr "id"; PyInt 7; PyList []] = [].
Proof. reflexivity. Qed.

(** C3: an item of the fetched list that lacks one of the six required fields
    leaves no trace in [vehicle_info]: the loop ends normally with the entries
    of the items before it followed by those of the items after it, and every
    entry carries all six values of a complete item. *)
Theorem incomplete_item_is_skipped data pre item post :
  getitem data "data" = Ok (PyList (pre ++ item :: post)) →
  missing_field item →
  vehicle_info_of data = Ok (collect pre ++ collect post) ∧
  (∀ e, ¬ entry_from item e) ∧
  (∀ e, e ∈ collect pre ++ collect post →
        ∃ other, other ∈ pre ++ post ∧ entry_from other e).
Proof.
  intros Hdata Hmiss. split_and!.
  - rewrite (vehicle_info_of_list _ _ Hdata).
    by rewrite collect_app, collect_cons, (collect_skip _ Hmiss).
  - intros e. by apply missing_field_no_entry.
  - intros e. rewrite <- collect_app. apply elem_of_collect.
Qed.

Lemma incomplete_item_is_skipped_witness :
  vehicle_info_of
    (PyDict {[ "data" :=
       PyList [sample_item "y1" "Red" sample_attributes;
               sample_item "y2" "Red" (delete "latitude" sample_attributes);
               sample_item "y3" "1" sample_attributes] ]}) =
  Ok [sample_entry "y1" "Red"; sample_entry "y3" "1"].
Proof.
  destruct (incomplete_item_is_skipped
              (PyDict {[ "data" :=
                 PyList [sample_item "y1" "Red" sample_attributes;
                         sample_item "y2" "Red" (delete "latitude" sample_attributes);
                         sample_item "y3" "1" sample_attributes] ]})
              [sample_item "y1" "Red" sample_attributes]
              (sample_item "y2" "Red" (delete "latitude" sample_attributes))
              [sample_item "y3" "1" sample_attributes]) as [Hinfo _].
  - vm_compute. reflexivity.
  - exists latitude_path. split; [|vm_compute; reflexivity].
    unfold required_fields. set_solver.
  - rewrite Hinfo. vm_compute. reflexivity.
Defined.

End FetchFacts.

(** ** Delay categories *)

Lemma apply_categorize_lookup delays i mins :
  delays !! i = Some mins →
  apply_categorize delays !! i = Some (categorize_delay mins).
Proof. intros Hi. unfold apply_categorize. by rewrite list_lookup_fmap, Hi. Qed.

(** C1: for a delay between 0 and 6 minutes the category is the one of the
    threshold table: at most 1 is "On Time", exactly 2 is "Low Delay", 3 or 4
    is "Moderate Delay" and 5 or more is "High Delay". *)
Theorem categorize_delay_table (mins : Z) :
  0 ≤ mins ≤ 6 →
  (mins ≤ 1 → categorize_delay mins = "On Time") ∧
  (mins = 2 → categorize_delay mins = "Low Delay") ∧
  (3 ≤ mins ≤ 4 → categorize_delay mins = "Moderate Delay") ∧
  (5 ≤ mins → categorize_delay mins = "High Delay").
Proof.
  intros _. unfold categorize_delay.
  repeat split; intros; repeat case_decide; try reflexivity; lia.
Qed.

Lemma categorize_delay_table_witness :
  0 ≤ 3 ≤ 6 ∧ categorize_delay 3 = "Moderate Delay".
Proof.
  split; [lia|]. apply (categorize_delay_table 3); lia.
Defined.

(** ** Sidebar filters *)

Lemma filter_all {A} (P : A → Prop) `{∀ x, Decision (P x)} (l : list A) :
  (∀ x, x ∈ l → P x) → filter P l = l.
Proof.
  induction l as [|x l IH]; intros HP; [done|].
  rewrite filter_cons_True by (apply HP; left).
  f_equal. apply IH. intros y Hy. apply HP. by right.
Qed.

Lemma filtered_df_filter df sv sr dc :
  filtered_df df sv sr dc = filter (selected sv sr dc) df.
Proof.
  unfold filtered_df, where_eq.
  repeat case_decide; rewrite ?list_filter_filter;
    try (apply list_filter_iff; intros row; unfold selected; intuition congruence).
  symmetry. apply filter_all. intros row _. unfold selected. intuition congruence.
Qed.

Lemma filtered_df_no_selector df : filtered_df df "None" "None" "All" = df.
Proof. unfold filtered_df. by repeat case_decide. Qed.

(** C2: the filter block returns exactly the rows that satisfy every active
    selector, in their original order; a selector left on "None" (or "All")
    asks nothing, and with all three left there the frame comes back as it
    is. *)
Theorem filter_block_conjunction df search_vehicle search_route delay_filter :
  filtered_df df search_vehicle search_route delay_filter =
    filter (selected search_vehicle search_route delay_filter) df ∧
  (∀ row, row ∈ filtered_df df search_vehicle search_route delay_filter ↔
          row ∈ df ∧ selected search_vehicle search_route delay_filter row) ∧
  filtered_df df search_vehicle search_route delay_filter `sublist_of` df ∧
  filtered_df df "None" "None" "All" = df.
Proof.
  rewrite filtered_df_filter. split_and!.
  - reflexivity.
  - intros row. rewrite list_elem_of_filter. tauto.
  - apply sublist_filter.
  - apply filtered_df_no_selector.
Qed.

(** C9: filtering an already filtered frame with the same three selectors
    changes nothing. *)
Theorem filter_block_idempotent df search_vehicle search_route delay_filter :
  filtered_df (filtered_df df search_vehicle search_route delay_filter)
    search_vehicle search_route delay_filter =
  filtered_df df search_vehicle search_route delay_filter.
Proof.
  rewrite !filtered_df_filter. apply filter_all.
  intros row Hrow. apply list_elem_of_filter in Hrow. tauto.
Qed.

(** C10: "None" and "All" are ordinary entries of the select boxes that stand
    for "no filter".  When a row's vehicle id (or route) is the string "None",
    choosing that value constrains nothing: every row that passes the other
    two selectors is returned whatever its own id (or route), and with the
    others idle the whole frame comes back. *)
Theorem sentinel_value_selects_everything df row :
  row ∈ df →
  (Vehicle_ID row = "None" →
     filtered_df df (Vehicle_ID row) "None" "All" = df ∧
     ∀ search_route delay_filter other,
       other ∈ df →
       (search_route ≠ "None" → Route other = search_route) →
       (delay_filter ≠ "All" → Delay_Category other = delay_filter) →
       other ∈ filtered_df df (Vehicle_ID row) search_route delay_filter) ∧
  (Route row = "None" →
     filtered_df df "None" (Route row) "All" = df ∧
     ∀ search_vehicle delay_filter other,
       other ∈ df →
       (search_vehicle ≠ "None" → Vehicle_ID other = search_vehicle) →
       (delay_filter ≠ "All" → Delay_Category other = delay_filter) →
       other ∈ filtered_df df search_vehicle (Route row) delay_filter) ∧
  (∀ search_vehicle search_route other,
     other ∈ df →
     (search_vehicle ≠ "None" → Vehicle_ID other = search_vehicle) →
     (search_route ≠ "None" → Route other = search_route) →
     other ∈ filtered_df df search_vehicle search_route "All").
Proof.
  intros _. split_and!.
  - intros ->. split; [apply filtered_df_no_selector|].
    intros sr dc other Hin Hr Hc. rewrite filtered_df_filter.
    apply list_elem_of_filter. unfold selected. tauto.
  - intros ->. split; [apply filtered_df_no_selector|].
    intros sv dc other Hin Hv Hc. rewrite filtered_df_filter.
    apply list_elem_of_filter. unfold selected. tauto.
  - intros sv sr other Hin Hv Hr. rewrite filtered_df_filter.
    apply list_elem_of_filter. unfold selected. tauto.
Qed.

Lemma sentinel_value_selects_everything_witness :
  let df := [sample_row "None" "Red" 2 8; sample_row "y1" "None" 5 9] in
  filtered_df df "None" "None" "All" = df.
Proof.
  intros df.
  refine (proj1 (proj1 (sentinel_value_selects_everything df
                          (sample_row "None" "Red" 2 8) _) _)).
  - set_solver.
  - reflexivity.
Defined.

(** ** Sorting by a column *)

Section InsertionSort.
Variable key : VehicleRecord → Z.
Variable after_ties : bool.

Lemma insert_row_perm x df : insert_row key after_ties x df ≡ₚ x :: df.
Proof.
  induction df as [|y df IH]; simpl; [done|].
  destruct (if after_ties then _ else _); [done|].
  by rewrite IH, Permutation_swap.
Qed.

Lemma insertion_sort_perm df : insertion_sort key after_ties df ≡ₚ df.
Proof.
  induction df as [|x df IH]; simpl; [done|].
  by rewrite insert_row_perm, IH.
Qed.

Lemma insert_row_sorted x df :
  StronglySorted (key_order key true) df →
  StronglySorted (key_order key true) (insert_row key after_ties x df).
Proof.
  induction 1 as [|y df Hsorted IH Hy]; simpl.
  - repeat constructor.
  - destruct (if after_ties then _ else _) eqn:Hcmp.
    + assert (key x ≤ key y) as Hxy.
      { destruct after_ties; apply bool_decide_eq_true in Hcmp; lia. }
      constructor; [by constructor|]. constructor; [done|].
      eapply Forall_impl; [exact Hy|]. unfold key_order. intros z ?. lia.
    + assert (key y ≤ key x) as Hyx.
      { destruct after_ties; apply bool_decide_eq_false in Hcmp; lia. }
      constructor; [done|]. rewrite insert_row_perm. by constructor.
Qed.

Lemma insertion_sort_sorted df :
  StronglySorted (key_order key true) (insertion_sort key after_ties df).
Proof.
  induction df as [|x df IH]; simpl; [constructor|].
  by apply insert_row_sorted.
Qed.

Lemma reverse_sorted df :
  StronglySorted (key_order key true) df →
  StronglySorted (key_order key false) (reverse df).
Proof.
  induction 1 as [|y df Hsorted IH Hy]; [constructor|].
  rewrite reverse_cons. apply StronglySorted_app. split; [|split].
  - intros a b Ha Hb. rewrite elem_of_reverse in Ha.
    apply list_elem_of_singleton in Hb as ->.
    rewrite Forall_forall in Hy. by apply Hy.
  - done.
  - repeat constructor.
Qed.

Lemma sort_with_perm ascending df : sort_with after_ties key ascending df ≡ₚ df.
Proof.
  unfold sort_with. destruct ascending.
  - apply insertion_sort_perm.
  - by rewrite reverse_Permutation, insertion_sort_perm, reverse_Permutation.
Qed.

Lemma sort_with_sorted ascending df :
  StronglySorted (key_order key ascending) (sort_with after_ties key ascending df).
Proof.
  unfold sort_with. destruct ascending.
  - apply insertion_sort_sorted.
  - apply reverse_sorted, insertion_sort_sorted.
Qed.

End InsertionSort.




(** The sorter that keeps ties in index order. *)
Definition stable_sorter : Sorter :=
  {| sort_values := sort_with false;
     sort_values_perm key := sort_with_perm key false;
     sort_values_sorted key := sort_with_sorted key false |}.


(** Taking the rows at every position once gives the rows back, whatever
    the order of the positions. *)
Lemma take_rows_seq_app pre df :
  take_rows (pre ++ df) (seq (length pre) (length df)) = df.
Proof.
  unfold take_rows. revert pre.
  induction df as [|row df IH]; intros pre; simpl; [done|].
  rewrite list_lookup_middle by done. f_equal.
  specialize (IH (pre ++ [row])).
  rewrite <- app_assoc, length_app, Nat.add_1_r in IH. exact IH.
Qed.

Lemma take_rows_perm df indexer :
  indexer ≡ₚ seq 0 (length df) → take_rows df indexer ≡ₚ df.
Proof.
  intros Hperm. unfold take_rows. rewrite Hperm.
  exact (reflexive_eq _ _ (take_rows_seq_app [] df)).
Qed.

Lemma sort_values_quicksort_perm key ascending df :
  sort_values_quicksort key ascending df ≡ₚ df.
Proof.
  unfold sort_values_quicksort. case_decide as Hsorts.
  - apply take_rows_perm, Hsorts.
  - apply sort_with_perm.
Qed.

Lemma sort_values_quicksort_sorted key ascending df :
  StronglySorted (key_order key ascending) (sort_values_quicksort key ascending df).
Proof.
  unfold sort_values_quicksort. case_decide as Hsorts.
  - apply Hsorts.
  - apply sort_with_sorted.
Qed.

(** The sort the program calls: [sort_values] with the default [kind]. *)
Definition quicksort_sorter : Sorter :=
  {| sort_values := sort_values_quicksort;
     sort_values_perm := sort_values_quicksort_perm;
     sort_values_sorted := sort_values_quicksort_sorted |}.

(** ** The first row of a sorted frame *)

Section SortedHead.
Context {sorter : Sorter}.
Variable key : VehicleRecord → Z.
Variable ascending : bool.

Lemma sort_values_nonempty df :
  df ≠ [] → ∃ row rest, sort_values key ascending df = row :: rest.
Proof.
  intros Hne. destruct (sort_values key ascending df) as [|row rest] eqn:Hsort.
  - pose proof (sort_values_perm key ascending df) as Hperm.
    rewrite Hsort in Hperm. apply Permutation_nil_l in Hperm. congruence.
  - eauto.
Qed.

Lemma sort_values_head_leads df row rest :
  sort_values key ascending df = row :: rest →
  row ∈ df ∧ ∀ other, other ∈ df → key_order key ascending row other.
Proof.
  intros Hsort.
  pose proof (sort_values_perm key ascending df) as Hperm.
  pose proof (sort_values_sorted key ascending df) as Hsorted.
  rewrite Hsort in Hperm, Hsorted. split.
  - rewrite <- Hperm. left.
  - intros other Hin. rewrite <- Hperm in Hin.
    apply StronglySorted_cons in Hsorted as [Hall _].
    apply elem_of_cons in Hin as [-> | Hin].
    + unfold key_order. destruct ascending; lia.
    + rewrite Forall_forall in Hall. by apply Hall.
Qed.


End SortedHead.

(** ** Summary tiles *)


Lemma sorted_asc_head_min `{Sorter} df row rest :
  sort_values Delay true df = row :: rest → min_delay_row row df.
Proof. intros Hsort. exact (sort_values_head_leads Delay true df row rest Hsort). Qed.



(** When the first row is among the best, it is the one a first-wins rule
    picks. *)
Lemma first_max_delay_row_head row top df :
  first_max_delay_row row (top :: df) → Delay row ≤ Delay top → row = top.
Proof.
  intros (pre & post & Heq & Hpre & _) Hle.
  destruct pre as [|p pre]; simpl in Heq; [congruence|].
  injection Heq as -> _.
  assert (p ∈ p :: pre) as Hin by left. specialize (Hpre p Hin). lia.
Qed.

Lemma first_min_delay_row_head row top df :
  first_min_delay_row row (top :: df) → Delay top ≤ Delay row → row = top.
Proof.
  intros (pre & post & Heq & Hpre & _) Hle.
  destruct pre as [|p pre]; simpl in Heq; [congruence|].
  injection Heq as -> _.
  assert (p ∈ p :: pre) as Hin by left. specialize (Hpre p Hin). lia.
Qed.

(** A frame has one first row with the greatest (the least) delay. *)
Lemma first_split_unique (S W : relation VehicleRecord) pre1 r1 post1 pre2 r2 post2 :
  (∀ a b, S a b → W b a → False) →
  pre1 ++ r1 :: post1 = pre2 ++ r2 :: post2 →
  (∀ other, other ∈ pre1 → S other r1) → (∀ other, other ∈ post1 → W other r1) →
  (∀ other, other ∈ pre2 → S other r2) → (∀ other, other ∈ post2 → W other r2) →
  r1 = r2.
Proof.
  intros Hasym Heq Hpre1 Hpost1 Hpre2 Hpost2.
  revert pre2 Heq Hpre1 Hpre2.
  induction pre1 as [|a pre1 IH]; intros [|p pre2]; simpl; intros Heq Hpre1 Hpre2.
  - congruence.
  - injection Heq as Hp Hpost. exfalso. apply (Hasym p r2).
    + apply Hpre2. left.
    + subst p. apply Hpost1. rewrite Hpost, elem_of_app, elem_of_cons. auto.
  - injection Heq as Ha Hpost. exfalso. apply (Hasym a r1).
    + apply Hpre1. left.
    + subst a. apply Hpost2. rewrite <- Hpost, elem_of_app, elem_of_cons. auto.
  - injection Heq as Ha Heq. apply (IH pre2 Heq).
    + intros other Hin. apply Hpre1. by right.
    + intros other Hin. apply Hpre2. by right.
Qed.


Lemma first_min_delay_row_unique r1 r2 df :
  first_min_delay_row r1 df → first_min_delay_row r2 df → r1 = r2.
Proof.
  intros (pre1 & post1 & -> & Hpre1 & Hpost1) (pre2 & post2 & Heq & Hpre2 & Hpost2).
  apply (first_split_unique (λ a b, Delay b < Delay a) (λ a b, Delay b ≤ Delay a)
           pre1 r1 post1 pre2 r2 post2); try done.
  intros a b. simpl. lia.
Qed.


Lemma best_vehicle_tie_frame_first :
  first_min_delay_row (sample_row "y1" "Red" 1 8) best_vehicle_tie_frame.
Proof.
  exists (take 5 best_vehicle_tie_frame), (drop 6 best_vehicle_tie_frame).
  split; [reflexivity|].
  split; apply Forall_forall; apply (bool_decide_unpack _); vm_compute; exact I.
Qed.



(** With a stable sort the tile of the sample frame shows "y2", the first of
    the two rows with six minutes. *)
Example most_delayed_vehicle_stable_sample :
  @most_delayed_vehicle stable_sorter
    [sample_row "y1" "Red" 2 8; sample_row "y2" "Red" 6 8;
     sample_row "y3" "1" 6 9] = Ok "y2".
Proof. reflexivity. Qed.

(** On [most_delayed_tie_frame] the default sort of pandas puts another of
    the rows with six minutes in front: its partition steps exchange rows
    with equal keys.  The tile shows "y2". *)
Example most_delayed_vehicle_tie_sample :
  nargsort_sorts Delay false most_delayed_tie_frame ∧
  @most_delayed_vehicle quicksort_sorter most_delayed_tie_frame = Ok "y2".
Proof.
  split.
  - apply (bool_decide_unpack _). vm_compute. exact I.
  - vm_compute. reflexivity.
Qed.


(** The tile next to it scans the frame with a mask, and so it does show the
    first of the rows with the least delay. *)
Lemma foldl_min_least xs : ∀ x,
  foldl Z.min x xs ∈ x :: xs ∧ ∀ y, y ∈ x :: xs → foldl Z.min x xs ≤ y.
Proof.
  induction xs as [|z xs IH]; intros x; simpl.
  - split; [left|]. by intros y ->%list_elem_of_singleton.
  - destruct (IH (Z.min x z)) as [Hin Hle]. split.
    + apply elem_of_cons in Hin as [-> | Hin]; [|by do 2 right].
      destruct (Z.min_spec x z) as [[_ ->] | [_ ->]]; [left | right; left].
    + intros y Hy. specialize (Hle (Z.min x z) (list_elem_of_here _ _)) as Hmin.
      apply elem_of_cons in Hy as [-> | [-> | Hy]%elem_of_cons].
      * lia.
      * lia.
      * apply Hle. by right.
Qed.

(** X1: for a non-empty frame the "Most On-Time Vehicle" tile shows the id of
    the first row, in index order, among those with the least delay. *)
Lemma most_ontime_vehicle_first_wins df :
  df ≠ [] →
  ∃ row, most_ontime_vehicle df = Ok (Vehicle_ID row) ∧ first_min_delay_row row df.
Proof.
  intros Hne. unfold most_ontime_vehicle, series_min.
  destruct df as [|r df]; [done|]. rewrite fmap_cons.
  destruct (foldl_min_least (Delay <$> df) (Delay r)) as [Hin Hle].
  rewrite <- fmap_cons in Hin, Hle.
  set (least := foldl Z.min (Delay r) (Delay <$> df)) in *.
  apply list_elem_of_fmap in Hin as (r0 & Hr0 & Hin0).
  destruct (where_eq Delay least (r :: df)) as [|row rest] eqn:Hmask.
  { assert (r0 ∈ where_eq Delay least (r :: df)) as Habs
      by (apply list_elem_of_filter; done).
    rewrite Hmask in Habs. by apply elem_of_nil in Habs. }
  exists row. split; [done|].
  destruct (head_filter_Some (λ x, Delay x = least) (r :: df) row)
    as (pre & post & Hsplit & Hpre).
  { unfold where_eq in Hmask. by rewrite Hmask. }
  assert (Delay row = least) as Hrow.
  { assert (row ∈ where_eq Delay least (r :: df)) as Hin by (rewrite Hmask; left).
    by apply list_elem_of_filter in Hin as [? _]. }
  exists pre, post. split; [done|]. rewrite Forall_forall in Hpre.
  assert (∀ other, other ∈ r :: df → least ≤ Delay other) as Hall.
  { intros other Ho. apply Hle. by apply list_elem_of_fmap_2. }
  rewrite Hsplit in Hall. split.
  - intros other Ho. specialize (Hpre other Ho). simpl in Hpre.
    specialize (Hall other). rewrite elem_of_app in Hall.
    specialize (Hall (or_introl Ho)). lia.
  - intros other Ho. rewrite Hrow. apply Hall.
    rewrite elem_of_app, elem_of_cons. auto.
Qed.

(** ** Vehicle delays in the same route *)

Lemma first_filtered_in_df df sv sr dc row rest :
  filtered_df df sv sr dc = row :: rest → row ∈ df.
Proof.
  intros Hf. assert (row ∈ filtered_df df sv sr dc) as Hin by (rewrite Hf; left).
  rewrite filtered_df_filter in Hin. by apply list_elem_of_filter in Hin as [_ ?].
Qed.

(** C8: when the filtered frame is not empty, the comparison is made for the
    route of its first row over the whole frame: the rows of that route,
    sorted by falling delay, are charted when there are at least two of them,
    and otherwise the note that there is only one vehicle is shown. *)
Theorem same_route_comparison_spec `{sorter : Sorter}
    df search_vehicle search_route delay_filter row rest :
  filtered_df df search_vehicle search_route delay_filter = row :: rest →
  let vehicles_same_route := filter (λ r, Route r = Route row) df in
  let shown :=
    same_route_comparison df (filtered_df df search_vehicle search_route delay_filter) in
  (1 ≤ length vehicles_same_route)%nat ∧
  ((2 ≤ length vehicles_same_route)%nat →
     ∃ sorted_df, shown = BarChart (Route row) sorted_df ∧
                  sorted_df ≡ₚ vehicles_same_route ∧
                  StronglySorted (λ a b, Delay b ≤ Delay a) sorted_df) ∧
  ((length vehicles_same_route < 2)%nat → shown = OnlyOneVehicle).
Proof.
  intros Hf same shown. subst shown. rewrite Hf.
  unfold same_route_comparison, where_eq. fold same. split; [|split].
  - assert (row ∈ same) as Hin.
    { apply list_elem_of_filter. split; [done|]. by eapply first_filtered_in_df. }
    destruct same; [by apply elem_of_nil in Hin | simpl; lia].
  - intros Hlen. case_decide; [|lia].
    eexists. split; [done|]. split.
    + apply sort_values_perm.
    + apply (sort_values_sorted Delay false).
  - intros Hlen. case_decide; [lia | done].
Qed.

Lemma same_route_comparison_spec_witness :
  let df := [sample_row "y1" "A" 3 8; sample_row "y2" "B" 1 8; sample_row "y3" "A" 5 9] in
  let vehicles_same_route := filter (λ r, Route r = "A") df in
  let shown := @same_route_comparison stable_sorter df (filtered_df df "None" "A" "All") in
  (1 ≤ length vehicles_same_route)%nat ∧
  ((2 ≤ length vehicles_same_route)%nat →
     ∃ sorted_df, shown = BarChart "A" sorted_df ∧
                  sorted_df ≡ₚ vehicles_same_route ∧
                  StronglySorted (λ a b, Delay b ≤ Delay a) sorted_df) ∧
  ((length vehicles_same_route < 2)%nat → shown = OnlyOneVehicle).
Proof.
  apply (@same_route_comparison_spec stable_sorter
           [sample_row "y1" "A" 3 8; sample_row "y2" "B" 1 8; sample_row "y3" "A" 5 9]
           "None" "A" "All" (sample_row "y1" "A" 3 8) [sample_row "y3" "A" 5 9]).
  reflexivity.
Defined.

(** Two vehicles on route "A" with delays 3 and 5 are charted as 5, 3; a
    single vehicle gives the note instead. *)
Example same_route_two_vehicles :
  @same_route_comparison stable_sorter
    [sample_row "y1" "A" 3 8; sample_row "y2" "B" 1 8; sample_row "y3" "A" 5 9]
    (filtered_df
       [sample_row "y1" "A" 3 8; sample_row "y2" "B" 1 8; sample_row "y3" "A" 5 9]
       "None" "A" "All") =
  BarChart "A" [sample_row "y3" "A" 5 9; sample_row "y1" "A" 3 8].
Proof. reflexivity. Qed.

Example same_route_single_vehicle :
  @same_route_comparison stable_sorter
    [sample_row "y1" "A" 3 8; sample_row "y2" "B" 1 8]
    (filtered_df [sample_row "y1" "A" 3 8; sample_row "y2" "B" 1 8] "y1" "None" "All") =
  OnlyOneVehicle.
Proof. reflexivity. Qed.

(** ** Best time and vehicle *)

Lemma idxmin_from_first_least entries : ∀ best pre0 post0,
  (∀ x, x ∈ pre0 → (best.2 < x.2)%Qc) →
  (∀ x, x ∈ post0 → (best.2 ≤ x.2)%Qc) →
  ∃ pre m post,
    pre0 ++ best :: post0 ++ entries = pre ++ (idxmin_from best entries, m) :: post ∧
    (∀ x, x ∈ pre → (m < x.2)%Qc) ∧
    (∀ x, x ∈ post → (m ≤ x.2)%Qc).
Proof.
  induction entries as [|x entries IH]; intros best pre0 post0 Hpre Hpost.
  - exists pre0, best.2, post0. rewrite app_nil_r. by destruct best.
  - simpl. case_decide as Hlt.
    + destruct (IH x (pre0 ++ best :: post0) []) as (pre & m & post & Heq & ? & ?).
      * intros y [Hy | [-> | Hy]%elem_of_cons]%elem_of_app.
        -- eapply Qclt_trans; [exact Hlt | by apply Hpre].
        -- exact Hlt.
        -- eapply Qclt_le_trans; [exact Hlt | by apply Hpost].
      * by intros y ?%elem_of_nil.
      * exists pre, m, post. split; [|done]. rewrite <- Heq.
        by rewrite <- app_assoc.
    + destruct (IH best pre0 (post0 ++ [x])) as (pre & m & post & Heq & ? & ?).
      * exact Hpre.
      * intros y [Hy | ->%list_elem_of_singleton]%elem_of_app.
        -- by apply Hpost.
        -- by apply Qcnot_lt_le.
      * exists pre, m, post. split; [|done]. rewrite <- Heq.
        by rewrite <- app_assoc.
Qed.

Lemma idxmin_first_least x entries :
  ∃ pre m post,
    idxmin (x :: entries) = Ok (idxmin_from x entries) ∧
    x :: entries = pre ++ (idxmin_from x entries, m) :: post ∧
    (∀ y, y ∈ pre → (m < y.2)%Qc) ∧
    (∀ y, y ∈ post → (m ≤ y.2)%Qc).
Proof.
  destruct (idxmin_from_first_least entries x [] []) as (pre & m & post & Heq & ? & ?);
    try (by intros y ?%elem_of_nil).
  exists pre, m, post. by rewrite <- Heq.
Qed.

Lemma elem_of_group_keys keys h : h ∈ group_keys keys ↔ h ∈ keys.
Proof.
  unfold group_keys. by rewrite merge_sort_Permutation, elem_of_remove_dups.
Qed.

Lemma group_keys_sorted keys : StronglySorted Z.le (group_keys keys).
Proof. unfold group_keys. apply (StronglySorted_merge_sort _). Qed.

Lemma groupby_hour_mean_delay_entries rows :
  groupby_hour_mean_delay rows =
  (λ h, (h, hour_mean rows h)) <$> group_keys (Hour <$> rows).
Proof. reflexivity. Qed.

Lemma best_hour_least_mean rows :
  rows ≠ [] →
  ∃ h, idxmin (groupby_hour_mean_delay rows) = Ok h ∧ least_mean_hour h rows.
Proof.
  intros Hne. rewrite groupby_hour_mean_delay_entries.
  pose proof (group_keys_sorted (Hour <$> rows)) as Hsorted.
  pose proof (elem_of_group_keys (Hour <$> rows)) as Hkeys.
  destruct (group_keys (Hour <$> rows)) as [|k keys] eqn:Hgk.
  { destruct rows as [|row rows]; [done|].
    specialize (Hkeys (Hour row)). rewrite fmap_cons in Hkeys.
    destruct Hkeys as [_ Hin]. specialize (Hin (list_elem_of_here _ _)).
    by apply elem_of_nil in Hin. }
  rewrite fmap_cons.
  destruct (idxmin_first_least (k, hour_mean rows k)
              ((λ h, (h, hour_mean rows h)) <$> keys))
    as (pre & m & post & -> & Heq & Hpre & Hpost).
  eexists. split; [reflexivity|].
  rewrite <- (fmap_cons (λ h, (h, hour_mean rows h))) in Heq.
  apply fmap_app_inv in Heq as (kpre & ktail & -> & Htail & Hsplit).
  symmetry in Htail.
  apply fmap_cons_inv in Htail as (h & kpost & [= Hh Hm] & -> & ->).
  rewrite Hh. subst m. rewrite Hsplit in Hsorted.
  apply StronglySorted_app in Hsorted as (_ & _ & Hsorted).
  apply StronglySorted_cons in Hsorted as [Hle _].
  rewrite Forall_forall in Hle.
  split.
  - apply Hkeys. rewrite Hsplit, elem_of_app, elem_of_cons. auto.
  - intros h' Hin. apply Hkeys in Hin. rewrite Hsplit in Hin.
    apply elem_of_app in Hin as [Hin | [-> | Hin]%elem_of_cons].
    + assert (hour_mean rows h < hour_mean rows h')%Qc as Hlt.
      { apply (Hpre (h', hour_mean rows h')).
        by apply (list_elem_of_fmap_2 (λ h, (h, hour_mean rows h))). }
      split; [by apply Qclt_le_weak|].
      intros Heq. apply Qclt_not_eq in Hlt. congruence.
    + split; [apply Qcle_refl | lia].
    + split; [|intros _; by apply Hle].
      apply (Hpost (h', hour_mean rows h')).
      by apply (list_elem_of_fmap_2 (λ h, (h, hour_mean rows h))).
Qed.

Lemma predict_selected `{sorter : Sorter} `{ops : StringOps} df route row rest :
  route ≠ "" →
  route_df df route = row :: rest →
  ∃ h best rest',
    predict df (Some route) = Ok (Best h (Vehicle_ID best) (Delay best)) ∧
    idxmin (groupby_hour_mean_delay (route_df df route)) = Ok h ∧
    sort_values Delay true (route_df df route) = best :: rest'.
Proof.
  intros Hroute Hrows. unfold predict, py_truthy.
  rewrite bool_decide_eq_true_2 by done. rewrite Hrows.
  destruct (best_hour_least_mean (row :: rest)) as (h & Hh & _); [done|].
  destruct (sort_values_nonempty Delay true (row :: rest)) as (best & rest' & Hsort);
    [done|].
  exists h, best, rest'. by rewrite Hh, Hsort.
Qed.

(** The rows the panel works on: those whose route id, lower-cased and
    stripped by pandas, equals the chosen id lower-cased and stripped by
    Python; for ids in plain text that is equality up to the case of letters
    and to spaces at either end. *)
Lemma elem_of_route_df `{ops : StringOps} df route row :
  row ∈ route_df df route ↔
  row ∈ df ∧ Series_str_strip (Series_str_lower (Route row)) = str_strip (str_lower route).
Proof. unfold route_df. by rewrite list_elem_of_filter, (comm and). Qed.

Lemma elem_of_route_df_plain `{ops : StringOps} df route row :
  plain route → plain (Route row) →
  row ∈ route_df df route ↔
  row ∈ df ∧ ascii_strip (ascii_lower (Route row)) = ascii_strip (ascii_lower route).
Proof.
  intros Hroute Hrow.
  by rewrite elem_of_route_df, (Series_normal_plain _ Hrow), (str_normal_plain _ Hroute).
Qed.

(** C7, as the program has it: when the chosen route is a non-empty string
    and some row matches it (equality of the lower-cased, stripped route
    ids, which for ids in plain text is equality up to case and outer
    spaces), the panel names the hour whose rows have the least mean delay,
    the smallest such hour when several share it. *)
Theorem best_hour_has_least_mean `{sorter : Sorter} `{ops : StringOps} df route :
  route ≠ "" →
  route_df df route ≠ [] →
  (∀ row, row ∈ route_df df route ↔
          row ∈ df ∧
          Series_str_strip (Series_str_lower (Route row)) = str_strip (str_lower route)) ∧
  (plain route →
   ∀ row, plain (Route row) →
          (row ∈ route_df df route ↔
           row ∈ df ∧
           ascii_strip (ascii_lower (Route row)) = ascii_strip (ascii_lower route))) ∧
  ∃ best_hour best_vehicle best_delay,
    predict df (Some route) = Ok (Best best_hour best_vehicle best_delay) ∧
    least_mean_hour best_hour (route_df df route).
Proof.
  intros Hroute Hrows. split; [|split].
  { intros row. apply elem_of_route_df. }
  { intros Hplain row Hrow. by apply elem_of_route_df_plain. }
  destruct (route_df df route) as [|row rest] eqn:Hrdf; [done|].
  destruct (predict_selected df route row rest Hroute Hrdf)
    as (h & best & rest' & Hshown & Hh & _).
  exists h, (Vehicle_ID best), (Delay best). split; [done|].
  destruct (best_hour_least_mean (row :: rest)) as (h' & Hh' & Hleast); [done|].
  rewrite Hrdf in Hh. congruence.
Qed.

Lemma best_hour_has_least_mean_witness :
  ∃ best_vehicle best_delay,
    @predict stable_sorter ascii_ops
      [sample_row "y1" "A" 4 8; sample_row "y2" "B" 0 7; sample_row "y3" "a " 1 9]
      (Some "A") = Ok (Best 9 best_vehicle best_delay).
Proof.
  destruct (@best_hour_has_least_mean stable_sorter ascii_ops
              [sample_row "y1" "A" 4 8; sample_row "y2" "B" 0 7; sample_row "y3" "a " 1 9]
              "A") as (_ & _ & h & v & d & Hshown & _).
  - discriminate.
  - vm_compute. discriminate.
  - exists v, d. rewrite Hshown. vm_compute in Hshown.
    injection Hshown as <- _ _. reflexivity.
Defined.

(** On route "A" with a row at hour 8 (delay 4) and one at hour 9 (delay 1)
    the panel names hour 9 and the vehicle of the hour-9 row. *)
Example predict_sample :
  @predict stable_sorter ascii_ops
    [sample_row "y1" "A" 4 8; sample_row "y2" "B" 0 7; sample_row "y3" "a " 1 9]
    (Some "A") = Ok (Best 9 "y3" 1).
Proof. vm_compute. reflexivity. Qed.

(** Two hours with the same mean: the smaller hour is named. *)
Example predict_tied_hours :
  @predict stable_sorter ascii_ops
    [sample_row "y1" "A" 3 17; sample_row "y2" "A" 1 8; sample_row "y3" "A" 5 8]
    (Some "A") = Ok (Best 8 "y2" 1).
Proof. vm_compute. reflexivity. Qed.

(** A choice that is the empty string is false for [if ai_route:], whatever
    the frame, the sort and the string methods. *)
Lemma predict_empty_choice `{sorter : Sorter} `{ops : StringOps} df :
  predict df (Some "") = Ok NothingShown.
Proof. reflexivity. Qed.

(** C7, as the specification words it, does not hold for the route whose id
    is the empty string: the row matches, but [if ai_route:] is false for an
    empty string and the panel stays empty. *)
Lemma best_hour_not_shown_for_empty_route :
  ¬ (∀ (df : DataFrame) (route : string),
       @route_df ascii_ops df route ≠ [] →
       ∃ best_hour best_vehicle best_delay,
         @predict quicksort_sorter ascii_ops df (Some route) =
           Ok (Best best_hour best_vehicle best_delay) ∧
         least_mean_hour best_hour (@route_df ascii_ops df route)).
Proof.
  intros Hspec.
  destruct (Hspec [sample_row "y1" "" 3 8] "") as (h & v & d & Hshown & _).
  - vm_compute. discriminate.
  - rewrite predict_empty_choice in Hshown. discriminate.
Qed.

Example predict_empty_route :
  @predict quicksort_sorter ascii_ops [sample_row "y1" "" 3 8] (Some "") =
    Ok NothingShown ∧
  @route_df ascii_ops [sample_row "y1" "" 3 8] "" = [sample_row "y1" "" 3 8].
Proof. split; vm_compute; reflexivity. Qed.



(** With a stable sort the first of the two vehicles with one minute is
    named. *)
Example predict_stable_ties :
  @predict stable_sorter ascii_ops
    [sample_row "y1" "A" 4 8; sample_row "y2" "A" 1 9; sample_row "y3" "A" 1 9]
    (Some "A") = Ok (Best 9 "y2" 1).
Proof. vm_compute. reflexivity. Qed.


(** Nor does the rule for ties hold of the sort the program calls: on route
    "Red" of [best_vehicle_tie_frame] the default sort of pandas puts another
    of the rows with one minute in front of the first of them, and the panel
    names "y2". *)
Example predict_tie_sample :
  @route_df ascii_ops best_vehicle_tie_frame "Red" = best_vehicle_tie_frame ∧
  nargsort_sorts Delay true best_vehicle_tie_frame ∧
  @predict quicksort_sorter ascii_ops best_vehicle_tie_frame (Some "Red") =
    Ok (Best 8 "y2" 1).
Proof.
  split; [|split].
  - vm_compute. reflexivity.
  - apply (bool_decide_unpack _). vm_compute. exact I.
  - vm_compute. reflexivity.
Qed.

Lemma best_vehicle_tie_not_first :
  ¬ (∀ (df : DataFrame) (route : string),
       route ≠ "" →
       @route_df ascii_ops df route ≠ [] →
       ∃ best_hour row,
         @predict quicksort_sorter ascii_ops df (Some route) =
           Ok (Best best_hour (Vehicle_ID row) (Delay row)) ∧
         first_min_delay_row row (@route_df ascii_ops df route)).
Proof.
  intros Hspec.
  destruct (Hspec best_vehicle_tie_frame "Red") as (h & row & Hshown & Hfirst).
  - discriminate.
  - vm_compute. discriminate.
  - destruct predict_tie_sample as (Hrows & _ & _).
    rewrite Hrows in Hfirst.
    rewrite (first_min_delay_row_unique _ _ _ Hfirst best_vehicle_tie_frame_first)
      in Hshown.
    vm_compute in Hshown. discriminate.
Qed.

(** * Further properties *)

(** ** The fetch loop: whole-response failures and what is kept *)

Module FetchEdges.
Import Fetch FetchFacts.

Lemma complete_item_entry item :
  ¬ missing_field item → ∃ e, make_entry item = Ok e.
Proof.
  intros Hcomplete.
  assert (∀ path, path ∈ required_fields → is_Some (field_at path item)) as Hsome.
  { intros path Hin. destruct (field_at path item) eqn:Hf; [eauto|].
    destruct Hcomplete. by exists path. }
  unfold required_fields in Hsome.
  destruct (Hsome id_path) as [v1 H1]; [set_solver|].
  destruct (Hsome route_path) as [v2 H2]; [set_solver|].
  destruct (Hsome latitude_path) as [v3 H3]; [set_solver|].
  destruct (Hsome longitude_path) as [v4 H4]; [set_solver|].
  destruct (Hsome status_path) as [v5 H5]; [set_solver|].
  destruct (Hsome updated_path) as [v6 H6]; [set_solver|].
  exists (Entry v1 v2 v3 v4 v5 v6). apply make_entry_Ok.
  by repeat split.
Qed.

(** X4: [vehicle_info] holds one entry for each item that has all six fields
    and nothing else, in the order of the feed, each entry carrying the six
    values of its item. *)
Theorem collect_keeps_complete_items items :
  Forall2 entry_from (filter (λ item, ¬ missing_field item) items) (collect items).
Proof.
  induction items as [|item items IH]; [constructor|].
  rewrite collect_cons, filter_cons. case_decide as Hmiss.
  - destruct (complete_item_entry item Hmiss) as [e He].
    assert (collect [item] = [e]) as ->.
    { unfold collect, loop_body. simpl. by rewrite He. }
    simpl. constructor; [by apply make_entry_Ok | done].
  - assert (missing_field item) as Hm by (by destruct (decide (missing_field item))).
    by rewrite (collect_skip _ Hm).
Qed.

(** X3: the loop is reached and left normally exactly when the response has a
    ["data"] member that can be iterated.  A response object without that
    member ends the fetch with [KeyError], a member that is [null], a number
    or a boolean with [TypeError]; neither is caught. *)
Theorem fetch_completes_iff data :
  ((∃ info, vehicle_info_of data = Ok info) ↔
   ∃ v, field_at ["data"] data = Some v ∧ py_iterable v) ∧
  (∀ d, data = PyDict d → d !! "data" = None →
        vehicle_info_of data = Raise (KeyError "data")) ∧
  (∀ v, field_at ["data"] data = Some v → ¬ py_iterable v →
        vehicle_info_of data = Raise TypeError).
Proof.
  unfold vehicle_info_of. split; [|split].
  - split.
    + intros [info Hinfo].
      destruct (getitem data "data") as [v|ex] eqn:Hget; [|discriminate].
      exists v. split; [by apply getitem_Ok|].
      cbn in Hinfo. destruct v; cbn in Hinfo; done.
    + intros (v & Hv & Hiter). apply getitem_Ok in Hv. rewrite Hv. cbn.
      destruct v; cbn; try done; eauto.
  - intros d -> Hd. cbn. by rewrite Hd.
  - intros v Hv Hiter. apply getitem_Ok in Hv. rewrite Hv. cbn.
    destruct v; cbn; try done; by destruct Hiter.
Qed.

Lemma fetch_completes_iff_witness :
  vehicle_info_of (PyDict {[ "errors" := PyList [] ]}) = Raise (KeyError "data") ∧
  vehicle_info_of (PyDict {[ "data" := PyNone ]}) = Raise TypeError.
Proof.
  split.
  - apply (proj1 (proj2 (fetch_completes_iff (PyDict {[ "errors" := PyList [] ]})))
             {[ "errors" := PyList [] ]}); reflexivity.
  - apply (proj2 (proj2 (fetch_completes_iff (PyDict {[ "data" := PyNone ]})))
             PyNone); [reflexivity | intros []].
Defined.

End FetchEdges.

(** ** Simulated delays and their categories *)

Section Simulation.
Context {random : RandomSource}.

Lemma draw_delays_length n g : length (draw_delays n g).1 = n.
Proof.
  revert g. induction n as [|n IH]; intros g; simpl; [done|].
  destruct (randint 0 6 g) as [delay g1].
  specialize (IH g1). destruct (draw_delays n g1) as [delays g2].
  simpl in *. by rewrite IH.
Qed.

Lemma draw_delays_range n g : Forall (λ d, 0 ≤ d ≤ 6) (draw_delays n g).1.
Proof.
  revert g. induction n as [|n IH]; intros g; simpl; [constructor|].
  pose proof (randint_range 0 6 g) as Hrange.
  destruct (randint 0 6 g) as [delay g1].
  specialize (IH g1). destruct (draw_delays n g1) as [delays g2].
  simpl in *. constructor; [lia | done].
Qed.

End Simulation.

(** The columns that the two assignments leave alone. *)
Definition same_feed_columns (old new : VehicleRecord) : Prop :=
  Vehicle_ID new = Vehicle_ID old ∧ Route new = Route old ∧
  Latitude new = Latitude old ∧ Longitude new = Longitude old ∧
  Current_Status new = Current_Status old ∧ Updated_At new = Updated_At old ∧
  Hour new = Hour old.

Lemma assign_delays_rows df delays :
  length delays = length df →
  Forall (λ d, 0 ≤ d ≤ 6) delays →
  let df' := zip_with set_delay_category (zip_with set_delay df delays)
               (apply_categorize (Delay <$> zip_with set_delay df delays)) in
  length df' = length df ∧ categorized df' ∧
  Forall (λ row, 0 ≤ Delay row ≤ 6) df' ∧ Forall2 same_feed_columns df df'.
Proof.
  revert delays. unfold categorized, apply_categorize.
  induction df as [|row df IH]; intros [|d delays] Hlen Hrange; simplify_eq/=.
  - by repeat split; constructor.
  - apply Forall_cons in Hrange as [Hd Hrange].
    destruct (IH delays Hlen Hrange) as (Hl & Hcat & Hdel & Hsame).
    split; [by rewrite Hl|]. split; [by constructor|].
    split; [by constructor|]. constructor; [|done].
    by repeat split.
Qed.

Lemma assign_column_Ok {B} (set : VehicleRecord → B → VehicleRecord) df values :
  length values = length df →
  assign_column set df values = Ok (zip_with set df values).
Proof. intros Hlen. unfold assign_column. by rewrite decide_True. Qed.

(** X5: whatever the generator draws, the two column assignments go through
    and give a frame of the same length in which every delay lies between 0
    and 6 minutes, every category is the category of the row's own delay, and
    the columns taken from the feed are untouched. *)
Theorem simulate_delays_invariant `{RandomSource} df g :
  ∃ df', (simulate_delays df g).1 = Ok df' ∧
         length df' = length df ∧
         categorized df' ∧
         Forall (λ row, 0 ≤ Delay row ≤ 6) df' ∧
         Forall2 same_feed_columns df df'.
Proof.
  unfold simulate_delays.
  pose proof (draw_delays_length (length df) g) as Hlen.
  pose proof (draw_delays_range (length df) g) as Hrange.
  destruct (draw_delays (length df) g) as [delays g']. simpl in Hlen, Hrange.
  eexists. split.
  - cbn [fst]. rewrite (assign_column_Ok set_delay df delays Hlen). cbn [mbind result_bind].
    rewrite assign_column_Ok; [reflexivity|].
    unfold apply_categorize. by rewrite !length_fmap.
  - by apply assign_delays_rows.
Qed.

(** The linear congruential generator is a random source. *)
Lemma lcg_randint_range a b g : a ≤ b → a ≤ (lcg_randint a b g).1 ≤ b.
Proof.
  intros Hab. unfold lcg_randint. simpl.
  pose proof (Z.mod_pos_bound g (b - a + 1)). lia.
Qed.

Definition lcg_source : RandomSource :=
  {| rng := Z; randint := lcg_randint; randint_range := lcg_randint_range |}.

Example simulate_delays_sample :
  match (@simulate_delays lcg_source
          [sample_row "y1" "Red" 0 8; sample_row "y2" "1" 0 9;
           sample_row "y3" "Red" 0 9] 2024).1 with
  | Ok df' => (λ row, (Vehicle_ID row, Delay row, Delay_Category row)) <$> df'
  | Raise _ => []
  end =
  [("y1", 1, "On Time"); ("y2", 3, "Moderate Delay"); ("y3", 6, "High Delay")].
Proof. vm_compute. reflexivity. Qed.

(** ** Categories in the filter, the tiles and the map *)

Lemma categorize_delay_cases mins :
  (categorize_delay mins = "On Time" ↔ mins ≤ 1) ∧
  (categorize_delay mins = "Low Delay" ↔ mins = 2) ∧
  (categorize_delay mins = "Moderate Delay" ↔ 3 ≤ mins ≤ 4) ∧
  (categorize_delay mins = "High Delay" ↔ 5 ≤ mins).
Proof.
  unfold categorize_delay.
  repeat case_decide; repeat split; intros; try discriminate; try done; lia.
Qed.

Lemma categorized_where_eq df category
    (P : VehicleRecord → Prop) `{∀ row, Decision (P row)} :
  categorized df →
  (∀ row, categorize_delay (Delay row) = category ↔ P row) →
  where_eq Delay_Category category df = filter P df.
Proof.
  intros Hcat HP. unfold where_eq. induction Hcat as [|row df Hrow Hcat IH]; [done|].
  rewrite !filter_cons, IH. rewrite Hrow.
  destruct (decide (categorize_delay (Delay row) = category)) as [Heq | Hne],
    (decide (P row)) as [Hp | Hnp]; try done.
  - by apply HP in Heq.
  - by apply HP in Hp.
Qed.

Lemma categorized_sublist df df' :
  df' `sublist_of` df → categorized df → categorized df'.
Proof.
  intros Hsub. unfold categorized. rewrite !Forall_forall.
  intros Hcat row Hin. apply Hcat. by eapply elem_of_sublist.
Qed.

Lemma filtered_df_category_only df delay_filter :
  delay_filter ≠ "All" →
  filtered_df df "None" "None" delay_filter = where_eq Delay_Category delay_filter df.
Proof. intros Hne. unfold filtered_df. by repeat case_decide. Qed.

(** X6: in a frame whose categories come from [categorize_delay], choosing a
    delay category in the sidebar (the other two boxes idle) returns exactly
    the rows whose delay lies in that category's range: at most 1 for
    "On Time", 2 for "Low Delay", 3 or 4 for "Moderate Delay", 5 or more for
    "High Delay". *)
Theorem delay_filter_selects_by_threshold df :
  categorized df →
  filtered_df df "None" "None" "On Time" = filter (λ row, Delay row ≤ 1) df ∧
  filtered_df df "None" "None" "Low Delay" = filter (λ row, Delay row = 2) df ∧
  filtered_df df "None" "None" "Moderate Delay" =
    filter (λ row, 3 ≤ Delay row ≤ 4) df ∧
  filtered_df df "None" "None" "High Delay" = filter (λ row, 5 ≤ Delay row) df.
Proof.
  intros Hcat. rewrite !filtered_df_category_only by done.
  split_and!.
  - apply categorized_where_eq; [done|].
    intros row. apply categorize_delay_cases.
  - apply categorized_where_eq; [done|].
    intros row. apply categorize_delay_cases.
  - apply categorized_where_eq; [done|].
    intros row. apply categorize_delay_cases.
  - apply categorized_where_eq; [done|].
    intros row. apply categorize_delay_cases.
Qed.

Lemma delay_filter_selects_by_threshold_witness :
  filtered_df [sample_row "y1" "Red" 0 8; sample_row "y2" "1" 6 9;
               sample_row "y3" "Red" 1 9] "None" "None" "On Time" =
  [sample_row "y1" "Red" 0 8; sample_row "y3" "Red" 1 9].
Proof.
  rewrite (proj1 (delay_filter_selects_by_threshold
                    [sample_row "y1" "Red" 0 8; sample_row "y2" "1" 6 9;
                     sample_row "y3" "Red" 1 9]
                    ltac:(repeat constructor))).
  reflexivity.
Defined.

(** X7: in such a frame the "On Time" tile counts the rows with a delay of at
    most 1 minute and the "High Delay" tile those with 5 minutes or more; the
    two never count the same row, so together they stay within the total. *)
Theorem count_tiles_by_threshold df :
  categorized df →
  on_time_count df = length (filter (λ row, Delay row ≤ 1) df) ∧
  high_delay_count df = length (filter (λ row, 5 ≤ Delay row) df) ∧
  (on_time_count df + high_delay_count df ≤ total_vehicles df)%nat.
Proof.
  intros Hcat. unfold on_time_count, high_delay_count, total_vehicles.
  rewrite (categorized_where_eq df "On Time" (λ row, Delay row ≤ 1) Hcat)
    by (intros row; apply categorize_delay_cases).
  rewrite (categorized_where_eq df "High Delay" (λ row, 5 ≤ Delay row) Hcat)
    by (intros row; apply categorize_delay_cases).
  split; [done|]. split; [done|].
  clear Hcat. induction df as [|row df IH]; [done|].
  rewrite !filter_cons. repeat case_decide; simpl; lia.
Qed.

Lemma count_tiles_by_threshold_witness :
  on_time_count [sample_row "y1" "Red" 0 8; sample_row "y2" "1" 2 9;
                 sample_row "y3" "Red" 5 9; sample_row "y4" "Red" 6 9] = 1%nat ∧
  high_delay_count [sample_row "y1" "Red" 0 8; sample_row "y2" "1" 2 9;
                    sample_row "y3" "Red" 5 9; sample_row "y4" "Red" 6 9] = 2%nat.
Proof.
  destruct (count_tiles_by_threshold
              [sample_row "y1" "Red" 0 8; sample_row "y2" "1" 2 9;
               sample_row "y3" "Red" 5 9; sample_row "y4" "Red" 6 9])
    as (Hon & Hhigh & _).
  - repeat constructor.
  - rewrite Hon, Hhigh. split; reflexivity.
Defined.

(** X8: a marker is green for a delay of at most 1 minute, light green for 2,
    orange for 3 or 4 and red from 5 on, so a category made by
    [categorize_delay] never gets the fallback colour; gray is what any other
    label gets. *)
Theorem marker_color_by_delay mins :
  marker_color (categorize_delay mins) =
    (if decide (mins ≤ 1) then "green"
     else if decide (mins = 2) then "lightgreen"
     else if decide (mins ≤ 4) then "orange" else "red") ∧
  marker_color (categorize_delay mins) ≠ "gray" ∧
  (∀ label, label ∉ ["On Time"; "Low Delay"; "Moderate Delay"; "High Delay"] →
            marker_color label = "gray").
Proof.
  split; [|split].
  - unfold categorize_delay. repeat case_decide; reflexivity.
  - unfold categorize_delay. repeat case_decide; vm_compute; discriminate.
  - intros label Hlabel. unfold marker_color, color_map.
    rewrite !not_elem_of_cons in Hlabel.
    destruct Hlabel as (? & ? & ? & ? & _).
    by rewrite !lookup_insert_ne, lookup_singleton_ne by done.
Qed.

(** ** Summary tiles on an empty and on a non-empty frame *)

Lemma most_ontime_vehicle_first_wins_witness :
  ∃ row,
    most_ontime_vehicle
      [sample_row "y1" "Red" 3 8; sample_row "y2" "Red" 0 8;
       sample_row "y3" "1" 0 9] = Ok (Vehicle_ID row) ∧
    first_min_delay_row row
      [sample_row "y1" "Red" 3 8; sample_row "y2" "Red" 0 8;
       sample_row "y3" "1" 0 9].
Proof. apply most_ontime_vehicle_first_wins. discriminate. Defined.

Example most_ontime_vehicle_sample :
  most_ontime_vehicle
    [sample_row "y1" "Red" 3 8; sample_row "y2" "Red" 0 8;
     sample_row "y3" "1" 0 9] = Ok "y2".
Proof. reflexivity. Qed.

Lemma series_min_mask_nonempty df least :
  series_min (Delay <$> df) = Some least → where_eq Delay least df ≠ [].
Proof.
  destruct df as [|r df]; [done|]. rewrite fmap_cons. intros [= <-].
  destruct (foldl_min_least (Delay <$> df) (Delay r)) as [Hin _].
  rewrite <- fmap_cons in Hin.
  apply list_elem_of_fmap in Hin as (r0 & Hr0 & Hin0).
  intros Hnil.
  assert (r0 ∈ where_eq Delay (foldl Z.min (Delay r) (Delay <$> df)) (r :: df)) as Hr
    by (apply list_elem_of_filter; done).
  rewrite Hnil in Hr. by apply elem_of_nil in Hr.
Qed.

(** X2: the two vehicle tiles fail with [IndexError] on an empty frame, and
    only there: on every other frame both show a vehicle id. *)
Theorem vehicle_tiles_raise_iff_empty `{Sorter} df :
  (most_delayed_vehicle df = Raise IndexError ↔ df = []) ∧
  (most_ontime_vehicle df = Raise IndexError ↔ df = []) ∧
  (df ≠ [] → (∃ v, most_delayed_vehicle df = Ok v) ∧
             (∃ v, most_ontime_vehicle df = Ok v)).
Proof.
  assert (df ≠ [] → (∃ v, most_delayed_vehicle df = Ok v) ∧
                    (∃ v, most_ontime_vehicle df = Ok v)) as Hok.
  { intros Hne. split.
    - destruct (sort_values_nonempty Delay false df Hne) as (row & rest & Hsort).
      exists (Vehicle_ID row). unfold most_delayed_vehicle. by rewrite Hsort.
    - unfold most_ontime_vehicle.
      destruct (series_min (Delay <$> df)) as [least|] eqn:Hmin.
      + pose proof (series_min_mask_nonempty df least Hmin) as Hmask.
        destruct (where_eq Delay least df) as [|row rest]; [done|]. by eexists.
      + by destruct df. }
  split; [|split; [|done]].
  - split.
    + intros Hraise. destruct df as [|row df]; [done|].
      destruct Hok as [[v Hv] _]; [done|]. congruence.
    + intros ->. unfold most_delayed_vehicle.
      pose proof (sort_values_perm Delay false []) as Hperm.
      apply Permutation_nil_r in Hperm. by rewrite Hperm.
  - split.
    + intros Hraise. destruct df as [|row df]; [done|].
      destruct Hok as [_ [v Hv]]; [done|]. congruence.
    + by intros ->.
Qed.

Lemma vehicle_tiles_raise_iff_empty_witness :
  @most_delayed_vehicle stable_sorter [] = Raise IndexError ∧
  (∃ v, most_ontime_vehicle [sample_row "y1" "Red" 3 8] = Ok v).
Proof.
  split.
  - by apply (proj1 (@vehicle_tiles_raise_iff_empty stable_sorter [])).
  - by apply (proj2 (proj2 (@vehicle_tiles_raise_iff_empty stable_sorter
                              [sample_row "y1" "Red" 3 8]))).
Defined.

(** ** Select boxes *)

Lemma elem_of_unique {A} `{EqDecision A} (xs : list A) x :
  x ∈ unique xs ↔ x ∈ xs.
Proof.
  induction xs as [|y xs IH]; simpl; [done|].
  rewrite !elem_of_cons, list_elem_of_filter, IH.
  destruct (decide (x = y)); tauto.
Qed.

Lemma NoDup_unique {A} `{EqDecision A} (xs : list A) : NoDup (unique xs).
Proof.
  induction xs as [|y xs IH]; simpl; constructor.
  - rewrite list_elem_of_filter. tauto.
  - by apply NoDup_filter.
Qed.

Lemma elem_of_ai_route_options df route :
  route ∈ ai_route_options df ↔ ∃ row, row ∈ df ∧ Route row = route.
Proof.
  unfold ai_route_options.
  rewrite merge_sort_Permutation, elem_of_unique, list_elem_of_fmap.
  split; intros (row & ? & ?); exists row; done.
Qed.

Lemma route_df_exact `{StringOps} df row :
  plain (Route row) → row ∈ df → row ∈ route_df df (Route row).
Proof. intros Hplain Hin. by apply elem_of_route_df_plain. Qed.

Lemma filtered_df_vehicle_only df search_vehicle :
  search_vehicle ≠ "None" →
  filtered_df df search_vehicle "None" "All" = where_eq Vehicle_ID search_vehicle df.
Proof. intros Hne. unfold filtered_df. by repeat case_decide. Qed.

Lemma filtered_df_route_only df search_route :
  search_route ≠ "None" →
  filtered_df df "None" search_route "All" = where_eq Route search_route df.
Proof. intros Hne. unfold filtered_df. by repeat case_decide. Qed.

Lemma where_eq_nonempty {A} `{EqDecision A} (col : VehicleRecord → A) df row :
  row ∈ df → where_eq col (col row) df ≠ [].
Proof.
  intros Hin Hnil.
  assert (row ∈ where_eq col (col row) df) as Hrow
    by (by apply list_elem_of_filter).
  rewrite Hnil in Hrow. by apply elem_of_nil in Hrow.
Qed.

(** X9: a vehicle id offered by the sidebar box, other than its first entry
    "None", always selects something: with the other two boxes idle the table
    is not empty and holds exactly the rows of that vehicle.  The same goes
    for an offered route. *)
Theorem offered_option_selects_rows df option :
  option ≠ "None" →
  (option ∈ vehicle_options df →
     filtered_df df option "None" "All" ≠ [] ∧
     filtered_df df option "None" "All" = filter (λ row, Vehicle_ID row = option) df) ∧
  (option ∈ route_options df →
     filtered_df df "None" option "All" ≠ [] ∧
     filtered_df df "None" option "All" = filter (λ row, Route row = option) df).
Proof.
  intros Hne. unfold vehicle_options, route_options.
  rewrite filtered_df_vehicle_only, filtered_df_route_only by done.
  split; intros [? | Hin]%elem_of_cons; try done; (split; [|done]);
    apply elem_of_unique, list_elem_of_fmap in Hin as (row & -> & Hin);
    by apply where_eq_nonempty.
Qed.

Lemma offered_option_selects_rows_witness :
  filtered_df [sample_row "y1" "Red" 3 8; sample_row "y2" "1" 0 8;
               sample_row "y3" "Red" 0 9] "None" "Red" "All" =
  [sample_row "y1" "Red" 3 8; sample_row "y3" "Red" 0 9].
Proof.
  destruct (offered_option_selects_rows
              [sample_row "y1" "Red" 3 8; sample_row "y2" "1" 0 8;
               sample_row "y3" "Red" 0 9] "Red") as [_ Hroute].
  - discriminate.
  - destruct Hroute as [_ ->]; [|reflexivity].
    vm_compute. set_solver.
Defined.

(** ** The prediction panel, case by case *)

Lemma predict_falsy `{Sorter} `{StringOps} df ai_route :
  py_truthy ai_route = false → predict df ai_route = Ok NothingShown.
Proof. intros Hfalse. unfold predict. destruct ai_route; by rewrite ?Hfalse. Qed.

Lemma predict_no_rows `{Sorter} `{StringOps} df route :
  route ≠ "" → route_df df route = [] → predict df (Some route) = Ok NoData.
Proof.
  intros Hroute Hrows. unfold predict, py_truthy.
  rewrite bool_decide_eq_true_2 by done. by rewrite Hrows.
Qed.

(** X10: which outcome of the panel appears is settled by the choice:
    nothing is shown exactly for no choice or the empty string, and the "no
    data" error exactly for a proper string that matches no row; a best hour
    and a best vehicle are shown only for a proper string with matching rows,
    and they are then an hour, an id and a delay found among those rows. *)
Theorem predict_outcomes `{Sorter} `{StringOps} df ai_route :
  (predict df ai_route = Ok NothingShown ↔ ai_route = None ∨ ai_route = Some "") ∧
  (predict df ai_route = Ok NoData ↔
     ∃ route, ai_route = Some route ∧ route ≠ "" ∧ route_df df route = []) ∧
  (∀ h v d, predict df ai_route = Ok (Best h v d) →
     ∃ route row, ai_route = Some route ∧ route ≠ "" ∧
                  row ∈ route_df df route ∧ v = Vehicle_ID row ∧ d = Delay row ∧
                  h ∈ Hour <$> route_df df route).
Proof.
  destruct ai_route as [route|]; [destruct (decide (route = "")) as [-> | Hroute]|].
  - rewrite (predict_falsy df (Some "")) by done.
    split; [split; auto|]. split; [|discriminate].
    split; [discriminate | by intros (r & [= <-] & ? & _)].
  - destruct (route_df df route) as [|row rest] eqn:Hrows.
    + rewrite (predict_no_rows df route Hroute Hrows).
      split; [split; [discriminate | by intros [? | [= ?]]]|].
      split; [split; eauto | discriminate].
    + destruct (predict_selected df route row rest Hroute Hrows)
        as (h & best & rest' & Hshown & Hh & Hsort).
      rewrite Hshown.
      split; [split; [discriminate | by intros [? | [= ?]]]|].
      split.
      * split; [discriminate | intros (r & [= <-] & _ & Hnil)].
        by rewrite Hrows in Hnil.
      * intros h' v d [= <- <- <-]. exists route, best.
        split; [done|]. split; [done|].
        destruct (sorted_asc_head_min _ _ _ Hsort) as [Hin _].
        split; [done|]. split; [done|]. split; [done|].
        destruct (best_hour_least_mean (route_df df route)) as (h0 & Hh0 & Hin0 & _).
        { by rewrite Hrows. }
        congruence.
  - rewrite (predict_falsy df None) by done.
    split; [split; auto|]. split; [|discriminate].
    split; [discriminate | by intros (r & [= ] & _)].
Qed.

(** X11: the route box of the panel offers the routes of the frame, so,
    when the route ids of the frame are plain text, a choice made there
    always finds its own rows: the "no data" error cannot appear, and the
    panel stays empty only when the frame has no row or the chosen route id
    is the empty string. *)
Theorem offered_route_always_has_data `{Sorter} `{StringOps} df index :
  Forall (λ row, plain (Route row)) df →
  predict df (selectbox (ai_route_options df) index) ≠ Ok NoData ∧
  (predict df (selectbox (ai_route_options df) index) = Ok NothingShown ↔
     selectbox (ai_route_options df) index = None ∨
     selectbox (ai_route_options df) index = Some "").
Proof.
  intros Hplain. unfold selectbox.
  destruct (ai_route_options df !! index) as [route|] eqn:Hpick.
  - destruct (decide (route = "")) as [-> | Hroute].
    + rewrite (predict_falsy df (Some "")) by done.
      split; [done|]. split; auto.
    + apply list_elem_of_lookup_2, elem_of_ai_route_options in Hpick
        as (row & Hin & <-).
      rewrite Forall_forall in Hplain.
      pose proof (route_df_exact df row (Hplain row Hin) Hin) as Hrow.
      destruct (route_df df (Route row)) as [|r rest] eqn:Hrows;
        [by apply elem_of_nil in Hrow|].
      destruct (predict_selected df (Route row) r rest Hroute Hrows)
        as (h & best & rest' & -> & _ & _).
      split; [done|].
      split; [discriminate | by intros [? | [= ?]]].
  - rewrite (predict_falsy df None) by done.
    split; [done|]. split; auto.
Qed.

Lemma offered_route_always_has_data_witness :
  @predict stable_sorter ascii_ops
    [sample_row "y1" "Red" 3 8; sample_row "y2" "1" 0 8]
    (selectbox (ai_route_options [sample_row "y1" "Red" 3 8; sample_row "y2" "1" 0 8]) 1)
    ≠ Ok NoData.
Proof.
  refine (proj1 (@offered_route_always_has_data stable_sorter ascii_ops
                   [sample_row "y1" "Red" 3 8; sample_row "y2" "1" 0 8] 1 _)).
  apply (bool_decide_unpack _). vm_compute. exact I.
Defined.

(** ** The comparison chart *)

(** X12: a chart is drawn only with two or more bars; every bar is a row of
    the whole frame on the route of the first filtered row. *)
Theorem chart_has_two_bars `{Sorter} df filtered route_to_show sorted_df :
  same_route_comparison df filtered = BarChart route_to_show sorted_df →
  (2 ≤ length sorted_df)%nat ∧
  (∀ row, row ∈ sorted_df → row ∈ df ∧ Route row = route_to_show) ∧
  (∃ row rest, filtered = row :: rest ∧ Route row = route_to_show).
Proof.
  unfold same_route_comparison.
  destruct filtered as [|row rest]; [discriminate|].
  case_decide as Hlen; [|discriminate]. intros [= <- <-].
  pose proof (sort_values_perm Delay false (where_eq Route (Route row) df)) as Hperm.
  split; [by rewrite Hperm|]. split; [|eauto].
  intros r Hr. rewrite Hperm in Hr.
  by apply list_elem_of_filter in Hr as [? ?].
Qed.

Lemma chart_has_two_bars_witness :
  (2 ≤ length [sample_row "y3" "A" 5 9; sample_row "y1" "A" 3 8])%nat.
Proof.
  refine (proj1 (@chart_has_two_bars stable_sorter
                   [sample_row "y1" "A" 3 8; sample_row "y2" "B" 1 8;
                    sample_row "y3" "A" 5 9]
                   [sample_row "y1" "A" 3 8] "A" _ _)).
  reflexivity.
Defined.

(** X13: with only a route chosen in the sidebar, the chart compares exactly
    the rows of the table: it shows the filtered rows themselves in falling
    delay order, or the single-vehicle note when the table has one row. *)
Theorem route_filter_chart_shows_table `{Sorter} df search_route :
  search_route ≠ "None" →
  filtered_df df "None" search_route "All" ≠ [] →
  same_route_comparison df (filtered_df df "None" search_route "All") =
    if decide (1 < length (filtered_df df "None" search_route "All"))%nat
    then BarChart search_route
           (sort_values Delay false (filtered_df df "None" search_route "All"))
    else OnlyOneVehicle.
Proof.
  intros Hne. rewrite filtered_df_route_only by done. intros Hrows.
  unfold same_route_comparison.
  destruct (where_eq Route search_route df) as [|row rest] eqn:Hw; [done|].
  assert (Route row = search_route) as ->.
  { assert (row ∈ where_eq Route search_route df) as Hin by (rewrite Hw; left).
    by apply list_elem_of_filter in Hin as [? _]. }
  by rewrite Hw.
Qed.

Lemma route_filter_chart_shows_table_witness :
  @same_route_comparison stable_sorter
    [sample_row "y1" "A" 3 8; sample_row "y2" "B" 1 8; sample_row "y3" "A" 5 9]
    (filtered_df
       [sample_row "y1" "A" 3 8; sample_row "y2" "B" 1 8; sample_row "y3" "A" 5 9]
       "None" "B" "All") = OnlyOneVehicle.
Proof.
  rewrite (@route_filter_chart_shows_table stable_sorter
             [sample_row "y1" "A" 3 8; sample_row "y2" "B" 1 8;
              sample_row "y3" "A" 5 9] "B"); [reflexivity | discriminate |].
  vm_compute. discriminate.
Defined.

(** X14: for a route id in plain text, the rows that the sidebar keeps for
    it are among the rows that the prediction panel uses for it, in the same
    order; the panel may use more, because it compares lower-cased, stripped
    ids. *)
Theorem sidebar_rows_within_prediction_rows `{StringOps} df route :
  route ≠ "None" →
  plain route →
  filtered_df df "None" route "All" `sublist_of` route_df df route.
Proof.
  intros Hne Hplain. rewrite filtered_df_route_only by done. unfold where_eq, route_df.
  rewrite <- (list_filter_filter_l (λ row, Route row = route)
                (λ row, Series_str_strip (Series_str_lower (Route row)) =
                        str_strip (str_lower route))).
  - apply sublist_filter.
  - intros row ->.
    by rewrite (Series_normal_plain route Hplain), (str_normal_plain route Hplain).
Qed.

Lemma sidebar_rows_within_prediction_rows_witness :
  [sample_row "y1" "Red" 3 8] `sublist_of`
  [sample_row "y1" "Red" 3 8; sample_row "y2" " red" 1 8].
Proof.
  apply (@sidebar_rows_within_prediction_rows ascii_ops
           [sample_row "y1" "Red" 3 8; sample_row "y2" " red" 1 8;
            sample_row "y3" "Blue" 5 9] "Red").
  - discriminate.
  - apply (bool_decide_unpack _). vm_compute. exact I.
Defined.

(** ** Averages *)

Lemma groupby_route_keys df :
  (groupby_route_mean_delay df).*1 = merge_sort String.le (unique (Route <$> df)).
Proof.
  unfold groupby_route_mean_delay. rewrite <- list_fmap_compose.
  apply list_fmap_id.
Qed.

Lemma elem_of_groupby_route df r m :
  (r, m) ∈ groupby_route_mean_delay df ↔
  r ∈ Route <$> df ∧ m = mean (Delay <$> where_eq Route r df).
Proof.
  unfold groupby_route_mean_delay.
  rewrite list_elem_of_fmap. setoid_rewrite merge_sort_Permutation.
  setoid_rewrite elem_of_unique. split.
  - by intros (r' & [= -> ->] & ?).
  - intros [? ->]. by exists r.
Qed.

(** X15: the chart of averages has exactly one bar for each route of the
    frame, as many bars as the "Unique Routes" tile counts; each bar is the
    mean delay of the rows of its route, and the bars come in falling
    order. *)
Theorem route_avg_one_bar_per_route `{SeriesSorter} df :
  NoDup (route_avg df).*1 ∧
  (∀ r, r ∈ (route_avg df).*1 ↔ r ∈ Route <$> df) ∧
  length (route_avg df) = unique_routes df ∧
  (∀ r m, (r, m) ∈ route_avg df → m = mean (Delay <$> where_eq Route r df)) ∧
  StronglySorted (λ a b, (b.2 ≤ a.2)%Qc) (route_avg df).
Proof.
  unfold route_avg.
  pose proof (series_sort_values_perm false (groupby_route_mean_delay df)) as Hperm.
  split_and!.
  - rewrite Hperm, groupby_route_keys, merge_sort_Permutation. apply NoDup_unique.
  - intros r. rewrite Hperm, groupby_route_keys, merge_sort_Permutation.
    apply elem_of_unique.
  - rewrite Hperm. unfold groupby_route_mean_delay, unique_routes.
    by rewrite length_fmap, merge_sort_Permutation.
  - intros r m. rewrite Hperm. by intros [_ ?]%elem_of_groupby_route.
  - apply (series_sort_values_sorted false).
Qed.

Lemma total_bounds lo hi xs :
  Forall (λ x, lo ≤ x ≤ hi) xs →
  lo * Z.of_nat (length xs) ≤ total xs ≤ hi * Z.of_nat (length xs).
Proof.
  unfold total. induction 1 as [|x xs Hx Hxs IH]; simpl; [lia|].
  rewrite Nat2Z.inj_succ. lia.
Qed.

Lemma mean_bounds lo hi xs :
  xs ≠ [] →
  Forall (λ x, lo ≤ x ≤ hi) xs →
  (Qc_of_Z lo ≤ mean xs)%Qc ∧ (mean xs ≤ Qc_of_Z hi)%Qc.
Proof.
  intros Hne Hall. pose proof (total_bounds lo hi xs Hall) as [Hlo Hhi].
  unfold mean. set (n := Z.of_nat (length xs)) in *.
  assert (0 < n) as Hn by (destruct xs; [done | simpl in n; lia]).
  pose proof (proj1 (Z2Qc_inj_lt 0 n) Hn) as Hpos.
  rewrite Z2Qc_inj_0 in Hpos.
  assert (Qc_of_Z n ≠ Q2Qc {| QArith_base.Qnum := 0; QArith_base.Qden := 1 |}) as Hnz.
  { intros Heq. rewrite Heq in Hpos. by apply Qclt_not_eq in Hpos. }
  assert (Qc_of_Z (total xs) / Qc_of_Z n * Qc_of_Z n = Qc_of_Z (total xs))%Qc as Hdiv.
  { unfold Qcdiv. rewrite <- Qcmult_assoc, Qcmult_inv_l, Qcmult_1_r; done. }
  split.
  - apply (Qcmult_le_mono_pos_r _ _ (Qc_of_Z n) Hpos).
    rewrite Hdiv, <- Z2Qc_inj_mul. exact (proj1 (Z2Qc_inj_le _ _) Hlo).
  - apply (Qcmult_le_mono_pos_r _ _ (Qc_of_Z n) Hpos).
    rewrite Hdiv, <- Z2Qc_inj_mul. exact (proj1 (Z2Qc_inj_le _ _) Hhi).
Qed.

(** X16: when every delay of a non-empty frame lies between two bounds (0
    and 6 after the simulation), so does the "Avg Delay" tile and so does
    every bar of the chart of averages. *)
Theorem averages_within_delay_range `{SeriesSorter} df lo hi :
  df ≠ [] →
  Forall (λ row, lo ≤ Delay row ≤ hi) df →
  (∃ avg, avg_delay df = Some avg ∧ (Qc_of_Z lo ≤ avg)%Qc ∧ (avg ≤ Qc_of_Z hi)%Qc) ∧
  (∀ r m, (r, m) ∈ route_avg df → (Qc_of_Z lo ≤ m)%Qc ∧ (m ≤ Qc_of_Z hi)%Qc).
Proof.
  intros Hne Hall. split.
  - destruct df as [|row df]; [done|]. eexists. split; [reflexivity|].
    apply mean_bounds; [done|]. by apply Forall_fmap.
  - intros r m. unfold route_avg.
    rewrite (series_sort_values_perm false (groupby_route_mean_delay df)).
    intros [Hr ->]%elem_of_groupby_route.
    apply list_elem_of_fmap in Hr as (row & -> & Hin).
    apply mean_bounds.
    + intros Hnil%fmap_nil_inv. by apply (where_eq_nonempty Route df row).
    + apply Forall_fmap. unfold where_eq.
      rewrite Forall_forall in *. intros r' [_ ?]%list_elem_of_filter. by apply Hall.
Qed.

(** A sort of series to run the model with. *)
#[local] Instance value_order_dec ascending a b : Decision (value_order ascending a b).
Proof. unfold value_order. destruct ascending; apply _. Defined.

Lemma value_order_trans ascending : Transitive (value_order ascending).
Proof.
  intros a b c. unfold value_order. destruct ascending; intros ? ?.
  - by eapply Qcle_trans.
  - by eapply Qcle_trans.
Qed.

Lemma value_order_total ascending : Total (value_order ascending).
Proof.
  intros a b. unfold value_order.
  destruct ascending, (Qclt_le_dec a.2 b.2) as [?%Qclt_le_weak | ?]; auto.
Qed.

Definition merge_series_sorter : SeriesSorter :=
  {| series_sort_values ascending := merge_sort (value_order ascending);
     series_sort_values_perm ascending := merge_sort_Permutation (value_order ascending);
     series_sort_values_sorted ascending :=
       @StronglySorted_merge_sort _ (value_order ascending) _
         (value_order_trans ascending) (value_order_total ascending) |}.

Lemma averages_within_delay_range_witness :
  ∃ avg,
    avg_delay [sample_row "y1" "Red" 0 8; sample_row "y2" "1" 2 9;
               sample_row "y3" "Red" 5 9; sample_row "y4" "Red" 6 9] = Some avg ∧
    (Qc_of_Z 0 ≤ avg)%Qc ∧ (avg ≤ Qc_of_Z 6)%Qc.
Proof.
  apply (@averages_within_delay_range merge_series_sorter
           [sample_row "y1" "Red" 0 8; sample_row "y2" "1" 2 9;
            sample_row "y3" "Red" 5 9; sample_row "y4" "Red" 6 9] 0 6).
  - discriminate.
  - repeat constructor; simpl; lia.
Defined.

(** Delays 0, 2, 5 and 6 average to 13/4; route "Red" comes before route "1"
    in the chart of averages. *)
Example averages_sample :
  avg_delay [sample_row "y1" "Red" 0 8; sample_row "y2" "1" 2 9;
             sample_row "y3" "Red" 5 9; sample_row "y4" "Red" 6 9] =
    Some (Qc_of_Z 13 / Qc_of_Z 4)%Qc ∧
  (@route_avg merge_series_sorter
     [sample_row "y1" "Red" 0 8; sample_row "y2" "1" 2 9;
      sample_row "y3" "Red" 5 9; sample_row "y4" "Red" 6 9]).*1 = ["Red"; "1"].
Proof. split; vm_compute; reflexivity. Qed.

(** ** Entries of the sidebar boxes *)

(** X18: each vehicle id of the frame is offered once, after the entry
    "None"; the box shows "None" twice exactly when a vehicle has that very
    id. *)
Theorem vehicle_options_entries df :
  (∃ ids, vehicle_options df = "None" :: ids ∧ NoDup ids ∧
          ∀ v, v ∈ ids ↔ v ∈ Vehicle_ID <$> df) ∧
  (NoDup (vehicle_options df) ↔ "None" ∉ Vehicle_ID <$> df).
Proof.
  unfold vehicle_options. split.
  - eexists. split; [done|]. split; [apply NoDup_unique|].
    intros v. apply elem_of_unique.
  - rewrite NoDup_cons, elem_of_unique.
    pose proof (NoDup_unique (Vehicle_ID <$> df)). tauto.
Qed.

(** ** Normal form of a route id *)

(** X19: for a route id in plain text, the form in which the panel compares
    it (lower-cased, then stripped) is a normal form: it is plain text with
    no white space at either end, taking it again changes nothing, and the
    panel finds the same rows for a route id as for its normal form. *)
Theorem route_normal_form `{StringOps} df route :
  plain route →
  let normal := str_strip (str_lower route) in
  normal = ascii_strip (ascii_lower route) ∧
  plain normal ∧
  str_strip (str_lower normal) = normal ∧
  ascii_lstrip normal = normal ∧
  ascii_lstrip (String.rev normal) = String.rev normal ∧
  route_df df normal = route_df df route.
Proof.
  intros Hplain normal.
  assert (normal = ascii_strip (ascii_lower route)) as Hnormal
    by (by apply str_normal_plain).
  assert (plain normal) as Hpn.
  { rewrite Hnormal. by apply plain_ascii_strip, plain_ascii_lower. }
  assert (str_strip (str_lower normal) = normal) as Hidem.
  { rewrite (str_normal_plain normal Hpn), Hnormal.
    rewrite ascii_lower_strip by apply ascii_lower_idemp.
    apply ascii_strip_idemp. }
  split; [done|]. split; [done|]. split; [done|]. split; [|split].
  - rewrite Hnormal. unfold ascii_strip. apply rstrip_keeps_head, ascii_lstrip_idemp.
  - rewrite Hnormal. unfold ascii_strip. by rewrite rev_involutive, ascii_lstrip_idemp.
  - unfold route_df. by rewrite Hidem.
Qed.

Lemma route_normal_form_witness :
  @route_df ascii_ops
    [sample_row "y1" "Red" 3 8; sample_row "y2" " red" 1 8; sample_row "y3" "Blue" 5 9]
    "red" =
  @route_df ascii_ops
    [sample_row "y1" "Red" 3 8; sample_row "y2" " red" 1 8; sample_row "y3" "Blue" 5 9]
    " RED ".
Proof.
  refine (proj2 (proj2 (proj2 (proj2 (proj2
    (@route_normal_form ascii_ops
       [sample_row "y1" "Red" 3 8; sample_row "y2" " red" 1 8;
        sample_row "y3" "Blue" 5 9] " RED " _)))))).
  apply (bool_decide_unpack _). vm_compute. exact I.
Defined.
